(** * dnf/cli/commands/install.py: the install command's dispatcher

    A shallow embedding of [InstallCommand.run] and of the helper methods it
    calls.  The command drives three collaborators it does not own: the
    engine [self.base], the command-line front end [self.cli] and the
    logger.  Their calls are the observable behaviour of [run], so the
    embedding threads the engine's state through every call and records each
    call, with its arguments and what it gave back, in a trace. *)

From Stdlib Require Import List String Bool Arith Lia.
Import ListNotations.

Local Open Scope string_scope.
Local Open Scope list_scope.

(** ** Request data *)

(** The three [hawkey.FORM_*] constants the command aliases stand for. *)
Inductive hawkey_form : Type :=
| FORM_NAME
| FORM_NA
| FORM_NEVRA.

(** [self.opts]: what the option parser left for the command. *)
Record Opts : Type := {
  command : list string;
  grp_specs : list string;
  pkg_specs : list string;
  filenames : list string;
  assumeyes : bool
}.

(** [self.base.conf], as far as [run] reads it. *)
Record Conf : Type := {
  strict : bool;
  group_package_types : list string
}.

(** The class attribute [nevra_forms], a dict kept in insertion order. *)
Definition nevra_forms : list (string * hawkey_form) :=
  [("install-n", FORM_NAME); ("install-na", FORM_NA); ("install-nevra", FORM_NEVRA)].

Fixpoint dict_get {V : Type} (k : string) (d : list (string * V)) : option V :=
  match d with
  | [] => None
  | (k', v) :: d' => if String.eqb k k' then Some v else dict_get k d'
  end.

(** Truth value of a Python list: empty lists are false. *)
Definition truthy {A : Type} (l : list A) : bool :=
  match l with
  | [] => false
  | _ :: _ => true
  end.

(** [self.opts.command == ['localinstall']] *)
Definition is_localinstall (o : Opts) : bool :=
  if list_eq_dec string_dec (command o) ["localinstall"] then true else false.

(** [_get_nevra_forms_from_command]: the comprehension keeps the commands
    that are keys of [nevra_forms] and looks each of them up. *)
Definition _get_nevra_forms_from_command (o : Opts) : list hawkey_form :=
  flat_map (fun c => match dict_get c nevra_forms with
                     | Some f => [f]
                     | None => []
                     end) (command o).

(** [gettext]'s [_] leaves the message as it is in the C locale. *)
Definition gettext (s : string) : string := s.

Section Effects.

(** The engine's state, the package objects it hands out, the query objects
    of its sack and the exceptions it raises are opaque to the command. *)
Context {world pkg query exn : Type}.

(** One entry per collaborator call, in call order. *)
Inductive event : Type :=
| populate_update_security_filter_call (o : Opts) (q : query)
| logger_info (msg arg : string)
| logger_warning (msg arg : string)
| install_module_call (specs : list string) (yes : bool) (skipped : list string)
| add_remote_rpms_call (paths : list string) (strict_ : bool) (pkgs : list pkg)
| package_install_call (p : pkg) (strict_ : bool) (r : option exn)
| read_comps_call (arch_filter : bool)
| env_group_install_call
    (specs types : list string) (strict_ : bool) (r : option exn)
| install_call
    (spec : string) (strict_ : bool) (forms : list hawkey_form) (r : option exn)
| report_icase_hint_call (spec : string).

(** What leaves [run] as an exception: the two errors it constructs itself
    and whatever engine exception it does not catch. *)
Inductive raised : Type :=
| Error (value : string)
| PackagesNotAvailableError (value pkg_spec : string) (packages : list pkg)
| Propagated (e : exn).

Inductive result (A : Type) : Type :=
| Return (a : A)
| Raise (r : raised).
Arguments Return {A} a.
Arguments Raise {A} r.

Record outcome (A : Type) : Type := {
  trace : list event;
  final : world;
  value : result A
}.
Arguments trace {A} o.
Arguments final {A} o.
Arguments value {A} o.

(** ** The monad of the embedding: state, trace and exceptions *)
Definition M (A : Type) : Type := world -> outcome A.

Definition ret {A : Type} (a : A) : M A :=
  fun w => {| trace := []; final := w; value := Return a |}.

Definition raise {A : Type} (r : raised) : M A :=
  fun w => {| trace := []; final := w; value := Raise r |}.

Definition bind {A B : Type} (m : M A) (f : A -> M B) : M B :=
  fun w =>
    let o := m w in
    match value o with
    | Return a =>
        let o' := f a (final o) in
        {| trace := trace o ++ trace o'; final := final o'; value := value o' |}
    | Raise r => {| trace := trace o; final := final o; value := Raise r |}
    end.

(** A call: the state it leaves, the value it gives and its trace entry. *)
Definition call {A : Type} (f : world -> world * A) (ev : A -> event) : M A :=
  fun w => {| trace := [ev (snd (f w))]; final := fst (f w);
              value := Return (snd (f w)) |}.

Definition emit (ev : event) : M unit :=
  fun w => {| trace := [ev]; final := w; value := Return tt |}.

End Effects.

Arguments Return {pkg exn A} a.
Arguments Raise {pkg exn A} r.
Arguments trace {world pkg query exn A} o.
Arguments final {world pkg query exn A} o.
Arguments value {world pkg query exn A} o.

Declare Scope dnf_scope.
Delimit Scope dnf_scope with dnf.
Notation "x <- m ;; k" := (bind m (fun x => k))
  (at level 61, m at next level, right associativity) : dnf_scope.
Notation "m ;; k" := (bind m (fun _ => k))
  (at level 61, right associativity) : dnf_scope.
Local Open Scope dnf_scope.

(** Python's [for x in l: body], the body threading an accumulator. *)
Fixpoint for_each {world pkg query exn A B : Type}
    (l : list A) (body : A -> B -> @M world pkg query exn B) (acc : B) :
    @M world pkg query exn B :=
  match l with
  | [] => ret acc
  | x :: l' => acc' <- body x acc ;; for_each l' body acc'
  end.

Section Dispatcher.

Context {world pkg query exn : Type}.
Local Abbreviation M := (@M world pkg query exn).

(** ** Collaborators

    Calls that [run] makes inside a [try] block give back [None] when they
    return and [Some e] when they raise [e]; the other calls return.  The
    classes of [dnf.exceptions] are not part of this file, so the two
    [except] clauses are class tests taken as parameters. *)
Record Engine : Type := {
  isinstance_MarkingError : exn -> bool;
  isinstance_Error : exn -> bool;
  sack_query : world -> query;
  _populate_update_security_filter : Opts -> query -> world -> world;
  install_module : list string -> bool -> world -> world * list string;
  add_remote_rpms : list string -> bool -> world -> world * list pkg;
  package_install : pkg -> bool -> world -> world * option exn;
  read_comps : bool -> world -> world;
  env_group_install :
    list string -> list string -> bool -> world -> world * option exn;
  install : string -> bool -> list hawkey_form -> world -> world * option exn;
  _report_icase_hint : string -> world -> world;
  bold : string -> string;
  location : pkg -> string
}.

Variable base : Engine.
Variable opts : Opts.
Variable conf : Conf.

(** ** The command's helper methods *)

Definition _log_not_valid_rpm_file_paths (grp_specs_ : list string) : M unit :=
  let group_names := map (fun g => "@" ++ g)%string grp_specs_ in
  for_each (pkg_specs opts ++ group_names)
    (fun p _ => emit (logger_info (gettext "Not a valid rpm file path: %s")
                                  (bold base p))) tt.

Definition _inform_not_a_valid_combination (forms : list string) : M unit :=
  for_each forms
    (fun form _ => emit (logger_warning (gettext "Not a valid form: %s")
                                        (bold base form))) tt.

Definition _install_files : M (list pkg) :=
  let strict_ := strict conf in
  pkgs <- call (add_remote_rpms base (filenames opts) strict_)
               (add_remote_rpms_call (filenames opts) strict_) ;;
  for_each pkgs
    (fun p err_pkgs =>
       r <- call (package_install base p strict_) (package_install_call p strict_) ;;
       match r with
       | None => ret err_pkgs
       | Some e =>
           if isinstance_MarkingError base e then
             emit (logger_info (gettext "No match for argument: %s")
                               (bold base (location base p))) ;;
             ret (err_pkgs ++ [p])
           else raise (Propagated e)
       end) [].

(** The parameter is the list [run] passes; the body reads
    [self.opts.grp_specs]. *)
Definition _install_groups (grp_specs_ : list string) : M unit :=
  call (fun w => (read_comps base true w, tt)) (fun _ => read_comps_call true) ;;
  r <- call (env_group_install base (grp_specs opts) (group_package_types conf)
                               (strict conf))
            (env_group_install_call (grp_specs opts) (group_package_types conf)
                                    (strict conf)) ;;
  match r with
  | None => ret tt
  | Some e =>
      if isinstance_Error base e then
        if strict conf then raise (Propagated e) else ret tt
      else raise (Propagated e)
  end.

Definition _install_packages (forms : list hawkey_form) : M (list string) :=
  let strict_ := strict conf in
  for_each (pkg_specs opts)
    (fun pkg_spec errs =>
       r <- call (install base pkg_spec strict_ forms)
                 (install_call pkg_spec strict_ forms) ;;
       match r with
       | None => ret errs
       | Some e =>
           if isinstance_MarkingError base e then
             emit (logger_info (gettext "No package %s available.")
                               (bold base pkg_spec)) ;;
             call (fun w => (_report_icase_hint base pkg_spec w, tt))
                  (fun _ => report_icase_hint_call pkg_spec) ;;
             ret (errs ++ [pkg_spec])
           else raise (Propagated e)
       end) [].

(** ** [InstallCommand.run] *)
Definition run : M unit :=
  let forms := _get_nevra_forms_from_command opts in
  call (fun w => (_populate_update_security_filter base opts (sack_query base w) w,
                  sack_query base w))
       (populate_update_security_filter_call opts) ;;
  (if is_localinstall opts && (truthy (grp_specs opts) || truthy (pkg_specs opts))
   then
     _log_not_valid_rpm_file_paths (grp_specs opts) ;;
     if strict conf then raise (Error (gettext "Nothing to do.")) else ret tt
   else ret tt) ;;
  skipped_grp_specs <-
    (if truthy (grp_specs opts) && negb (is_localinstall opts)
     then call (install_module base (grp_specs opts) (assumeyes opts))
               (install_module_call (grp_specs opts) (assumeyes opts))
     else ret (grp_specs opts)) ;;
  err_pkgs <-
    (if truthy (filenames opts) && truthy forms
     then
       _inform_not_a_valid_combination (filenames opts) ;;
       if strict conf then raise (Error (gettext "Nothing to do.")) else ret []
     else _install_files) ;;
  (if truthy skipped_grp_specs && truthy forms
   then
     _inform_not_a_valid_combination skipped_grp_specs ;;
     if strict conf then raise (Error (gettext "Nothing to do.")) else ret tt
   else if truthy skipped_grp_specs && negb (is_localinstall opts)
        then _install_groups skipped_grp_specs
        else ret tt) ;;
  errs <-
    (if negb (is_localinstall opts) then _install_packages forms else ret []) ;;
  if (negb (Nat.eqb (List.length errs) 0) || negb (Nat.eqb (List.length err_pkgs) 0))
     && strict conf
  then raise (PackagesNotAvailableError (gettext "Unable to find a match")
                                        (String.concat " " errs) err_pkgs)
  else ret tt.

(** ** The steps of [run], one name each

    [run] is these steps in sequence (lemma [run_steps]); the names are for
    the proofs, which go through [run] a step at a time. *)

(** line 74 *)
Definition apply_security_filter : M query :=
  call (fun w => (_populate_update_security_filter base opts (sack_query base w) w,
                  sack_query base w))
       (populate_update_security_filter_call opts).

(** lines 75-78 *)
Definition check_localinstall_usage : M unit :=
  if is_localinstall opts && (truthy (grp_specs opts) || truthy (pkg_specs opts))
  then
    _log_not_valid_rpm_file_paths (grp_specs opts) ;;
    if strict conf then raise (Error (gettext "Nothing to do.")) else ret tt
  else ret tt.

(** lines 80-82 *)
Definition resolve_modules : M (list string) :=
  if truthy (grp_specs opts) && negb (is_localinstall opts)
  then call (install_module base (grp_specs opts) (assumeyes opts))
            (install_module_call (grp_specs opts) (assumeyes opts))
  else ret (grp_specs opts).

(** lines 84-89 *)
Definition files_step (forms : list hawkey_form) : M (list pkg) :=
  if truthy (filenames opts) && truthy forms
  then
    _inform_not_a_valid_combination (filenames opts) ;;
    if strict conf then raise (Error (gettext "Nothing to do.")) else ret []
  else _install_files.

(** lines 91-96 *)
Definition groups_step (forms : list hawkey_form) (skipped_grp_specs : list string) :
    M unit :=
  if truthy skipped_grp_specs && truthy forms
  then
    _inform_not_a_valid_combination skipped_grp_specs ;;
    if strict conf then raise (Error (gettext "Nothing to do.")) else ret tt
  else if truthy skipped_grp_specs && negb (is_localinstall opts)
       then _install_groups skipped_grp_specs
       else ret tt.

(** lines 98-99 *)
Definition packages_step (forms : list hawkey_form) : M (list string) :=
  if negb (is_localinstall opts) then _install_packages forms else ret [].

(** lines 101-104 *)
Definition finalize (errs : list string) (err_pkgs : list pkg) : M unit :=
  if (negb (Nat.eqb (List.length errs) 0) || negb (Nat.eqb (List.length err_pkgs) 0))
     && strict conf
  then raise (PackagesNotAvailableError (gettext "Unable to find a match")
                                        (String.concat " " errs) err_pkgs)
  else ret tt.

(** lines 91-104: what [run] does once the file step has given [err_pkgs]. *)
Definition run_after_files (forms : list hawkey_form)
    (skipped_grp_specs : list string) (err_pkgs : list pkg) : M unit :=
  groups_step forms skipped_grp_specs ;;
  errs <- packages_step forms ;;
  finalize errs err_pkgs.

(** lines 75-104: what [run] does once the security filter is applied. *)
Definition run_after_filter : M unit :=
  let forms := _get_nevra_forms_from_command opts in
  check_localinstall_usage ;;
  skipped_grp_specs <- resolve_modules ;;
  err_pkgs <- files_step forms ;;
  run_after_files forms skipped_grp_specs err_pkgs.


End Dispatcher.

(** ** The rest of the class *)

(** The class attribute [aliases]: the two plain commands and the keys of
    [nevra_forms]. *)
Definition aliases : list string :=
  ["install"; "localinstall"] ++ map fst nevra_forms.

(** The comprehension of [_get_nevra_forms_from_command] as it is written:
    the guard [command in list(self.nevra_forms.keys())], then the lookup
    [self.nevra_forms[command]] of each command that passes it. *)
Definition nevra_form_commands (o : Opts) : list string :=
  filter (fun c => existsb (String.eqb c) (map fst nevra_forms)) (command o).

(** [self.cli.demands]: the four attributes [configure] sets; [other_demands]
    stands for the attributes it does not touch. *)
Record Demands (O : Type) : Type := {
  sack_activation : bool;
  available_repos : bool;
  resolving : bool;
  root_user : bool;
  other_demands : O
}.
Arguments sack_activation {O} d.
Arguments available_repos {O} d.
Arguments resolving {O} d.
Arguments root_user {O} d.
Arguments other_demands {O} d.

(** The two checks of [dnf.cli.commands] that [configure] calls. *)
Inductive configure_call : Type :=
| checkGPGKey_call
| checkEnabledRepo_call.

Section Configure.

Context {O cli_error : Type}.

(** What each check does when it is called: [None] when it returns, [Some e]
    when it raises [e].  The checks exist to raise, and [configure] catches
    nothing. *)
Variable _checkGPGKey : option cli_error.
Variable _checkEnabledRepo : option cli_error.

(** [configure]: the demands it leaves, the checks it called and the
    exception that left it, if any. *)
Definition configure (demands : Demands O) (o : Opts) :
    Demands O * list configure_call * option cli_error :=
  let demands' := {| sack_activation := true;
                     available_repos := true;
                     resolving := true;
                     root_user := true;
                     other_demands := other_demands demands |} in
  match _checkGPGKey with
  | Some e => (demands', [checkGPGKey_call], Some e)
  | None =>
      if negb (truthy (filenames o))
      then (demands', [checkGPGKey_call; checkEnabledRepo_call], _checkEnabledRepo)
      else (demands', [checkGPGKey_call], None)
  end.

End Configure.

(** ** Reading a trace *)

Section Observations.

Context {pkg query exn : Type}.
Local Abbreviation event := (@event pkg query exn).

Definition is_filter_call (ev : event) : bool :=
  match ev with populate_update_security_filter_call _ _ => true | _ => false end.

Definition is_install_module_call (ev : event) : bool :=
  match ev with install_module_call _ _ _ => true | _ => false end.

Definition is_add_remote_rpms_call (ev : event) : bool :=
  match ev with add_remote_rpms_call _ _ _ => true | _ => false end.

Definition is_package_install_call (ev : event) : bool :=
  match ev with package_install_call _ _ _ => true | _ => false end.

(** The two engine calls of [_install_groups]. *)
Definition is_group_install_call (ev : event) : bool :=
  match ev with
  | read_comps_call _ | env_group_install_call _ _ _ _ => true
  | _ => false
  end.

Definition is_install_call (ev : event) : bool :=
  match ev with install_call _ _ _ _ => true | _ => false end.

Definition is_log (ev : event) : bool :=
  match ev with logger_info _ _ | logger_warning _ _ => true | _ => false end.

(** What [_install_packages] can add to a trace. *)
Definition is_package_phase_event (ev : event) : bool :=
  match ev with
  | install_call _ _ _ _ | logger_info _ _ | report_icase_hint_call _ => true
  | _ => false
  end.

(** What the loop of [_install_files] can add to a trace. *)
Definition is_file_loop_event (ev : event) : bool :=
  match ev with
  | package_install_call _ _ _ | logger_info _ _ => true
  | _ => false
  end.

(** The security filter, the log lines and the two calls of
    [_install_files]. *)
Definition is_file_phase_event (ev : event) : bool :=
  match ev with
  | populate_update_security_filter_call _ _ | logger_info _ _ | logger_warning _ _
  | add_remote_rpms_call _ _ _ | package_install_call _ _ _ => true
  | _ => false
  end.

(** Number of trace entries of one kind. *)
Definition count (p : event -> bool) (t : list event) : nat :=
  List.length (filter p t).

(** The specs handed to [base.install], in call order. *)
Definition attempted_specs (t : list event) : list string :=
  flat_map (fun ev => match ev with install_call s _ _ _ => [s] | _ => [] end) t.

(** The specs whose [base.install] returned: the engine queued them. *)
Definition queued_specs (t : list event) : list string :=
  flat_map (fun ev => match ev with install_call s _ _ None => [s] | _ => [] end) t.

(** The package lists the file intake handed back. *)
Definition intake_pkgs (t : list event) : list pkg :=
  flat_map (fun ev => match ev with add_remote_rpms_call _ _ ps => ps | _ => [] end) t.

Variable marking : exn -> bool.

(** The specs whose [base.install] raised a [MarkingError]. *)
Definition unmatched_specs (t : list event) : list string :=
  flat_map (fun ev => match ev with
                      | install_call s _ _ (Some e) => if marking e then [s] else []
                      | _ => []
                      end) t.

(** The packages whose [base.package_install] raised a [MarkingError]. *)
Definition unmatched_pkgs (t : list event) : list pkg :=
  flat_map (fun ev => match ev with
                      | package_install_call p _ (Some e) => if marking e then [p] else []
                      | _ => []
                      end) t.

(** [run] raises "Nothing to do." at its three early exits and lets an
    engine exception through from inside a phase; with any other value it
    has reached the statement of line 101. *)
Definition reaches_last_statement {A : Type} (v : @result pkg exn A) : Prop :=
  match v with
  | Raise (Error _) | Raise (Propagated _) => False
  | _ => True
  end.

End Observations.

(** [l] is [k] with some entries left out, the order kept. *)
Inductive subseq {A : Type} : list A -> list A -> Prop :=
| subseq_nil : subseq [] []
| subseq_skip x l k : subseq l k -> subseq l (x :: k)
| subseq_keep x l k : subseq l k -> subseq (x :: l) (x :: k).

Section MoreObservations.

Context {world pkg query exn : Type}.
Local Abbreviation event := (@event pkg query exn).

(** The specs handed to [base._report_icase_hint], in call order. *)
Definition hinted_specs (t : list event) : list string :=
  flat_map (fun ev => match ev with report_icase_hint_call s => [s] | _ => [] end) t.

(** The packages handed to [base.package_install], in call order. *)
Definition file_installs (t : list event) : list pkg :=
  flat_map (fun ev => match ev with package_install_call p _ _ => [p] | _ => [] end) t.

(** The arguments of the warnings, in order. *)
Definition warned (t : list event) : list string :=
  flat_map (fun ev => match ev with logger_warning _ arg => [arg] | _ => [] end) t.

Variable base : @Engine world pkg query exn.
Variable opts : Opts.
Variable conf : Conf.

(** The arguments of an engine call are those of the request: the lists of
    [self.opts], the strictness and the package types of [self.base.conf],
    the forms of the command. *)
Definition carries_request (ev : event) : Prop :=
  match ev with
  | install_module_call specs yes _ =>
      specs = grp_specs opts /\ yes = assumeyes opts
  | add_remote_rpms_call paths s _ =>
      paths = filenames opts /\ s = strict conf
  | package_install_call _ s _ => s = strict conf
  | read_comps_call arch_filter => arch_filter = true
  | env_group_install_call _ types s _ =>
      types = group_package_types conf /\ s = strict conf
  | install_call _ s forms _ =>
      s = strict conf /\ forms = _get_nevra_forms_from_command opts
  | _ => True
  end.

End MoreObservations.

(** ** A small engine to run the command on

    Its state is the list of what has been queued so far, newest first.  The
    module ["mod"] is the only group spec its module layer satisfies, the file
    ["bad.rpm"] and the spec ["nope"] match nothing, and the group ["broken"]
    makes group installation fail with an error that is no "not found". *)
Module Toy.

Inductive toy_exn : Type :=
| NoMatch      (* a MarkingError *)
| CompsFault   (* a dnf Error that is no MarkingError *)
| Crash.       (* not a dnf Error *)

Definition mem (s : string) (l : list string) : bool := existsb (String.eqb s) l.

Definition toy : @Engine (list string) string nat toy_exn :=
  {| isinstance_MarkingError e := match e with NoMatch => true | _ => false end;
     isinstance_Error e := match e with Crash => false | _ => true end;
     sack_query w := List.length w;
     _populate_update_security_filter _ _ w := w;
     install_module specs _ w :=
       (w, filter (fun s => negb (String.eqb s "mod")) specs);
     add_remote_rpms paths _ w := (w, paths);
     package_install p _ w :=
       if String.eqb p "bad.rpm" then (w, Some NoMatch) else (p :: w, None);
     read_comps _ w := w;
     env_group_install specs _ _ w :=
       if mem "broken" specs then (w, Some CompsFault) else (specs ++ w, None);
     install s _ _ w :=
       if String.eqb s "nope" then (w, Some NoMatch) else (s :: w, None);
     _report_icase_hint _ w := w;
     bold s := s;
     location p := p |}.

Definition request (cmd : string) (grps pkgs files : list string) : Opts :=
  {| command := [cmd]; grp_specs := grps; pkg_specs := pkgs;
     filenames := files; assumeyes := true |}.

Definition config (strict_ : bool) : Conf :=
  {| strict := strict_; group_package_types := ["mandatory"; "default"] |}.

End Toy.

(** ** Reasoning about the monad *)

Section Rules.

Context {world pkg query exn : Type}.
Local Abbreviation M := (@M world pkg query exn).
Local Abbreviation event := (@event pkg query exn).

(** [yields m w Q]: run from [w], [m] leaves a trace, a state and a value
    that satisfy [Q]. *)
Definition yields {A : Type} (m : M A) (w : world)
    (Q : list event -> world -> result A -> Prop) : Prop :=
  Q (trace (m w)) (final (m w)) (value (m w)).

(** Every entry [m] can add to the trace passes the test [p]. *)
Definition emits_only {A : Type} (p : event -> bool) (m : M A) : Prop :=
  forall w, Forall (fun ev => p ev = true) (trace (m w)).

End Rules.

Section Properties.

Context {world pkg query exn : Type}.
Local Abbreviation M := (@M world pkg query exn).
Local Abbreviation event := (@event pkg query exn).

(** *** Rules for [yields] *)

Lemma yields_bind {A B : Type} (m : M A) (f : A -> M B) w Q :
  yields m w (fun t1 w1 v1 =>
    match v1 with
    | Return a => yields (f a) w1 (fun t2 w2 v2 => Q (t1 ++ t2) w2 v2)
    | Raise r => Q t1 w1 (Raise r)
    end) ->
  yields (bind m f) w Q.
Proof.
  unfold yields, bind. destruct (value (m w)); auto.
Qed.

Lemma yields_weaken {A : Type} (m : M A) w (Q Q' : _ -> _ -> _ -> Prop) :
  yields m w Q -> (forall t w' v, Q t w' v -> Q' t w' v) -> yields m w Q'.
Proof. unfold yields. auto. Qed.

Lemma yields_ret {A : Type} (a : A) w (Q : list event -> world -> _ -> Prop) :
  Q [] w (Return a) -> yields (ret a) w Q.
Proof. auto. Qed.

Lemma yields_raise {A : Type} r w (Q : list event -> world -> result A -> Prop) :
  Q [] w (Raise r) -> yields (raise r) w Q.
Proof. auto. Qed.

Lemma yields_emit (ev : event) w (Q : list event -> world -> _ -> Prop) :
  Q [ev] w (Return tt) -> yields (emit ev) w Q.
Proof. auto. Qed.

Lemma yields_call {A : Type} (f : world -> world * A) ev w
    (Q : list event -> world -> _ -> Prop) :
  Q [ev (snd (f w))] (fst (f w)) (Return (snd (f w))) -> yields (call f ev) w Q.
Proof. auto. Qed.

(** One step through a command. *)
Ltac step :=
  lazymatch goal with
  | |- yields (bind _ _) _ _ => apply yields_bind
  | |- yields (ret _) _ _ => apply yields_ret
  | |- yields (raise _) _ _ => apply yields_raise
  | |- yields (emit _) _ _ => apply yields_emit
  | |- yields (call _ _) _ _ => apply yields_call
  end;
  cbv beta iota; cbn [fst snd].

(** *** Rules for [emits_only] *)

Lemma emits_only_ret {A : Type} (p : event -> bool) (a : A) :
  emits_only p (ret a : M A).
Proof. intros w. constructor. Qed.

Lemma emits_only_raise {A : Type} (p : event -> bool) r :
  emits_only p (raise r : M A).
Proof. intros w. constructor. Qed.

Lemma emits_only_emit (p : event -> bool) (ev : event) :
  p ev = true -> emits_only p (emit ev : M unit).
Proof. intros H w. repeat constructor. exact H. Qed.

Lemma emits_only_call {A : Type} (p : event -> bool) (f : world -> world * A) ev :
  (forall a, p (ev a) = true) -> emits_only p (call f ev).
Proof. intros H w. repeat constructor. apply H. Qed.

Lemma emits_only_bind {A B : Type} (p : event -> bool) (m : M A) (f : A -> M B) :
  emits_only p m -> (forall a, emits_only p (f a)) -> emits_only p (bind m f).
Proof.
  intros Hm Hf w. unfold bind. destruct (value (m w)); simpl.
  - apply Forall_app. split; [apply Hm | apply Hf].
  - apply Hm.
Qed.

Lemma emits_only_for_each {A B : Type} (p : event -> bool) (l : list A)
    (body : A -> B -> M B) :
  (forall x acc, emits_only p (body x acc)) ->
  forall acc, emits_only p (for_each l body acc).
Proof.
  intros Hbody. induction l as [|x l IH]; intros acc; simpl.
  - apply emits_only_ret.
  - apply emits_only_bind; auto.
Qed.

(** Walks through a command and leaves one goal per trace entry. *)
Ltac emits :=
  repeat first
    [ apply emits_only_ret
    | apply emits_only_raise
    | apply emits_only_emit
    | apply emits_only_call; intros
    | apply emits_only_for_each; intros
    | apply emits_only_bind; [ | intros ]
    | match goal with
      | |- emits_only _ (if ?x && ?y then _ else _) => destruct x; simpl
      | |- emits_only _ (if ?b then _ else _) => destruct b
      | |- emits_only _ (match ?r with Some _ => _ | None => _ end) => destruct r
      end ];
  try reflexivity.

Lemma count_app (p : event -> bool) t1 t2 :
  count p (t1 ++ t2) = count p t1 + count p t2.
Proof. unfold count. rewrite filter_app, length_app. reflexivity. Qed.

Lemma filter_none (p : event -> bool) t :
  Forall (fun ev => negb (p ev) = true) t -> filter p t = [].
Proof.
  induction 1 as [|ev t Hev _ IH]; simpl; [reflexivity|].
  destruct (p ev); [discriminate | exact IH].
Qed.

Variable base : @Engine world pkg query exn.

(** *** The helpers, one by one *)

Lemma _log_not_valid_rpm_file_paths_yields opts specs w :
  yields (_log_not_valid_rpm_file_paths base opts specs) w
    (fun t w' v => Forall (fun ev => is_log ev = true) t /\ w' = w /\ v = Return tt).
Proof.
  unfold _log_not_valid_rpm_file_paths, yields.
  generalize (pkg_specs opts ++ map (fun g => ("@" ++ g)%string) specs).
  intros l. revert w. induction l as [|x l IH]; intros w; simpl.
  - auto.
  - destruct (IH w) as (Ht & Hw & Hv). unfold bind; simpl.
    rewrite Hv. simpl. auto.
Qed.

Lemma localinstall_command opts :
  command opts = ["localinstall"] -> is_localinstall opts = true.
Proof.
  intros H. unfold is_localinstall.
  destruct (list_eq_dec string_dec (command opts) ["localinstall"]); congruence.
Qed.

Lemma localinstall_no_forms opts :
  is_localinstall opts = true -> _get_nevra_forms_from_command opts = [].
Proof.
  unfold is_localinstall, _get_nevra_forms_from_command.
  destruct (list_eq_dec string_dec (command opts) ["localinstall"]) as [E|]; [|discriminate].
  rewrite E. reflexivity.
Qed.

(** C7: on every run the first thing done is the security filter, applied
    to the query of the sack as the engine stood before the run; everything
    else the run does, it does on the engine as the filter left it, and it
    applies the filter no second time: the filter is applied exactly once,
    before every other call and whatever the target lists hold, also on the
    runs that end in an error. *)
Theorem C7_security_filter_once_and_first opts conf w :
  let filtered :=
    _populate_update_security_filter base opts (sack_query base w) w in
  exists rest,
    trace (run base opts conf w) =
      populate_update_security_filter_call opts (sack_query base w) :: rest
    /\ Forall (fun ev => is_filter_call ev = false) rest
    /\ count is_filter_call (trace (run base opts conf w)) = 1
    /\ rest = trace (run_after_filter base opts conf filtered)
    /\ final (run base opts conf w) = final (run_after_filter base opts conf filtered)
    /\ value (run base opts conf w) = value (run_after_filter base opts conf filtered).
Proof.
  intros filtered.
  assert (Hrest : emits_only (fun ev => negb (is_filter_call ev))
                    (run_after_filter base opts conf)).
  { unfold run_after_filter, run_after_files, check_localinstall_usage,
      resolve_modules, files_step, groups_step, packages_step, finalize,
      _log_not_valid_rpm_file_paths, _inform_not_a_valid_combination,
      _install_files, _install_groups, _install_packages. cbv zeta. emits. }
  assert (Hno : Forall (fun ev => is_filter_call ev = false)
                  (trace (run_after_filter base opts conf filtered))).
  { eapply Forall_impl; [|apply Hrest]. intros ev. simpl.
    destruct (is_filter_call ev); [discriminate | reflexivity]. }
  assert (Hrun : run base opts conf w
                 = bind (apply_security_filter base opts)
                     (fun _ => run_after_filter base opts conf) w)
    by reflexivity.
  exists (trace (run_after_filter base opts conf filtered)).
  rewrite Hrun. unfold bind, apply_security_filter, call.
  cbn [trace final value fst snd]. fold filtered.
  destruct (value (run_after_filter base opts conf filtered)) eqn:Ev.
  - cbn [trace final value app]. repeat split; auto.
    unfold count. simpl. rewrite filter_none; [reflexivity|].
    eapply Forall_impl; [|exact Hno]. intros ev E. rewrite E. reflexivity.
  - cbn [trace final value app]. repeat split; auto.
    unfold count. simpl. rewrite filter_none; [reflexivity|].
    eapply Forall_impl; [|exact Hno]. intros ev E. rewrite E. reflexivity.
Qed.

(** C8: when the command is [localinstall], whatever the strictness and the
    specs, every trace entry is the security filter, a log line, the file
    intake or a per-file package install: module resolution, group
    installation and per-spec package installation are never called. *)
Theorem C8_localinstall_installs_files_only opts conf w :
  command opts = ["localinstall"] ->
  Forall (fun ev => is_file_phase_event ev = true
                    /\ is_install_module_call ev = false
                    /\ is_group_install_call ev = false
                    /\ is_install_call ev = false)
         (trace (run base opts conf w)).
Proof.
  intros Hcmd. apply localinstall_command in Hcmd.
  assert (H : emits_only is_file_phase_event (run base opts conf)).
  { unfold run. rewrite Hcmd. simpl negb.
    unfold _log_not_valid_rpm_file_paths, _inform_not_a_valid_combination,
      _install_files. emits. }
  eapply Forall_impl; [|apply H]. intros ev Hev.
  destruct ev; simpl in *; try discriminate; auto.
Qed.

Lemma truthy_true {A : Type} (l : list A) : l <> [] -> truthy l = true.
Proof. destruct l; [congruence | reflexivity]. Qed.

Lemma _inform_not_a_valid_combination_yields forms w :
  yields (_inform_not_a_valid_combination base forms) w
    (fun t w' v => Forall (fun ev => is_log ev = true) t /\ w' = w /\ v = Return tt).
Proof.
  unfold _inform_not_a_valid_combination, yields.
  revert w. induction forms as [|x l IH]; intros w; simpl.
  - auto.
  - destruct (IH w) as (Ht & Hw & Hv). unfold bind; simpl.
    rewrite Hv. simpl. auto.
Qed.

(** C6: a [localinstall] that carries a group spec, run under strictness,
    raises "Nothing to do." and everything it did before is the security
    filter and log lines: neither the file intake nor a per-file package
    install was called. *)
Theorem C6_localinstall_with_group_fails_before_files opts conf w :
  command opts = ["localinstall"] ->
  grp_specs opts <> [] ->
  strict conf = true ->
  value (run base opts conf w) = Raise (Error "Nothing to do.")
  /\ exists logs,
       trace (run base opts conf w) =
         populate_update_security_filter_call opts (sack_query base w) :: logs
       /\ Forall (fun ev => is_log ev = true) logs
       /\ Forall (fun ev => is_add_remote_rpms_call ev = false
                            /\ is_package_install_call ev = false) logs.
Proof.
  intros Hcmd Hgrp Hstrict. apply localinstall_command in Hcmd.
  apply truthy_true in Hgrp.
  change (yields (run base opts conf) w (fun t _ v =>
    v = Raise (Error "Nothing to do.")
    /\ exists logs,
         t = populate_update_security_filter_call opts (sack_query base w) :: logs
         /\ Forall (fun ev => is_log ev = true) logs
         /\ Forall (fun ev => is_add_remote_rpms_call ev = false
                              /\ is_package_install_call ev = false) logs)).
  unfold run. rewrite Hcmd, Hgrp, Hstrict. simpl andb.
  apply yields_bind. unfold yields at 1. simpl.
  apply yields_bind. apply yields_bind.
  eapply yields_weaken; [apply _log_not_valid_rpm_file_paths_yields|].
  intros t w' v (Ht & -> & ->). unfold yields. simpl.
  rewrite app_nil_r. split; [reflexivity|]. exists t.
  split; [reflexivity|]. split; [exact Ht|].
  eapply Forall_impl; [|exact Ht]. intros ev Hev.
  destruct ev; simpl in *; try discriminate; auto.
Qed.

Lemma forms_not_localinstall opts :
  _get_nevra_forms_from_command opts <> [] -> is_localinstall opts = false.
Proof.
  intros H. destruct (is_localinstall opts) eqn:E; [|reflexivity].
  apply localinstall_no_forms in E. congruence.
Qed.

(** C2: a request with file paths and a NEVRA form, run under strictness,
    raises "Nothing to do."; the trace up to the raise holds no file intake,
    no per-file or per-spec package install and no group installation.
    (Module resolution, which precedes the check, is called when the request
    also carries group specs.) *)
Theorem C2_files_with_form_conflict opts conf w :
  filenames opts <> [] ->
  _get_nevra_forms_from_command opts <> [] ->
  strict conf = true ->
  value (run base opts conf w) = Raise (Error "Nothing to do.")
  /\ Forall (fun ev => is_add_remote_rpms_call ev = false
                       /\ is_package_install_call ev = false
                       /\ is_install_call ev = false
                       /\ is_group_install_call ev = false)
            (trace (run base opts conf w)).
Proof.
  intros Hfiles Hforms Hstrict.
  pose proof (forms_not_localinstall _ Hforms) as Hloc.
  apply truthy_true in Hfiles. apply truthy_true in Hforms.
  change (yields (run base opts conf) w (fun t _ v =>
    v = Raise (Error "Nothing to do.")
    /\ Forall (fun ev => is_add_remote_rpms_call ev = false
                         /\ is_package_install_call ev = false
                         /\ is_install_call ev = false
                         /\ is_group_install_call ev = false) t)).
  unfold run. rewrite Hloc, Hfiles, Hforms, Hstrict. simpl andb. simpl negb.
  apply yields_bind. unfold yields at 1. simpl.
  apply yields_bind. unfold yields at 1. simpl.
  apply yields_bind.
  assert (Hinform : forall t0 w0,
    Forall (fun ev => is_add_remote_rpms_call ev = false
                         /\ is_package_install_call ev = false
                         /\ is_install_call ev = false
                         /\ is_group_install_call ev = false) t0 ->
    yields (bind (_inform_not_a_valid_combination base (filenames opts))
                 (fun _ => raise (A := list pkg) (Error (gettext "Nothing to do."))))
           w0
      (fun t2 _ v2 =>
         v2 = Raise (Error "Nothing to do.")
         /\ Forall (fun ev => is_add_remote_rpms_call ev = false
                              /\ is_package_install_call ev = false
                              /\ is_install_call ev = false
                              /\ is_group_install_call ev = false) (t0 ++ t2))).
  { intros t0 w0 Ht0. apply yields_bind.
    eapply yields_weaken; [apply _inform_not_a_valid_combination_yields|].
    intros t w' v (Ht & -> & ->). unfold yields. simpl.
    split; [reflexivity|]. rewrite app_nil_r. apply Forall_app. split; [exact Ht0|].
    eapply Forall_impl; [|exact Ht]. intros ev Hev.
    destruct ev; simpl in *; try discriminate; auto. }
  destruct (truthy (grp_specs opts)); unfold yields at 1; simpl.
  - apply yields_bind. eapply yields_weaken.
    + apply (Hinform [populate_update_security_filter_call opts (sack_query base w);
                      install_module_call (grp_specs opts) (assumeyes opts)
                        (snd (install_module base (grp_specs opts) (assumeyes opts)
                           (_populate_update_security_filter base opts
                              (sack_query base w) w)))]).
      repeat constructor.
    + intros t w' v [Hv Ht]. destruct v; [discriminate|].
      injection Hv as ->. split; [reflexivity | exact Ht].
  - apply yields_bind. eapply yields_weaken.
    + apply (Hinform [populate_update_security_filter_call opts (sack_query base w)]).
      repeat constructor.
    + intros t w' v [Hv Ht]. destruct v; [discriminate|].
      injection Hv as ->. split; [reflexivity | exact Ht].
Qed.

Local Abbreviation marking := (isinstance_MarkingError base).

(** The loop of [_install_packages]: when it returns, every spec was tried
    and the result is the specs whose install raised a [MarkingError], in
    order; it raises only what [base.install] raised and the [except] clause
    let through. *)
Lemma _install_packages_yields opts conf forms w :
  yields (_install_packages base opts conf forms) w
    (fun t _ v =>
       Forall (fun ev => is_package_phase_event ev = true) t
       /\ match v with
          | Return errs =>
              errs = unmatched_specs marking t
              /\ attempted_specs t = pkg_specs opts
              /\ List.length (queued_specs t) + List.length errs
                 = List.length (pkg_specs opts)
          | Raise r =>
              exists e spec w0,
                r = Propagated e /\ marking e = false
                /\ snd (install base spec (strict conf) forms w0) = Some e
          end).
Proof.
  unfold _install_packages.
  match goal with
  | |- yields (for_each _ ?body _) _ _ =>
      enough (H : forall l acc w,
        yields (for_each l body acc) w
          (fun t _ v =>
             Forall (fun ev => is_package_phase_event ev = true) t
             /\ match v with
                | Return errs =>
                    errs = acc ++ unmatched_specs marking t
                    /\ attempted_specs t = l
                    /\ List.length (queued_specs t) + List.length errs
                       = List.length l + List.length acc
                | Raise r =>
                    exists e spec w0,
                      r = Propagated e /\ marking e = false
                      /\ snd (install base spec (strict conf) forms w0) = Some e
                end))
  end.
  { eapply yields_weaken; [apply H|]. intros t w' v [Ht Hv]. split; [exact Ht|].
    destruct v; [|exact Hv]. simpl in Hv. rewrite Nat.add_0_r in Hv. exact Hv. }
  clear w. induction l as [|x l IH]; intros acc w.
  - simpl for_each. step. rewrite app_nil_r. auto.
  - simpl for_each. step. step. step.
    destruct (snd (install base x (strict conf) forms w)) as [e|] eqn:E.
    + destruct (marking e) eqn:Em.
      * step. step. step. step. step.
        eapply yields_weaken; [apply IH|]. intros t w' v [Ht Hv].
        simpl. rewrite Em. split; [repeat constructor; exact Ht|].
        destruct v as [errs|r]; [|exact Hv].
        destruct Hv as (Herrs & -> & Hlen).
        split; [rewrite Herrs, <- app_assoc; reflexivity|].
        split; [reflexivity|].
        rewrite length_app in Hlen. simpl in Hlen. simpl. lia.
      * step. split; [repeat constructor|]. exists e, x, w. auto.
    + step. eapply yields_weaken; [apply IH|]. intros t w' v [Ht Hv].
      simpl. split; [repeat constructor; exact Ht|].
      destruct v as [errs|r]; [|exact Hv].
      destruct Hv as (Herrs & -> & Hlen).
      split; [exact Herrs|]. split; [reflexivity|]. simpl. lia.
Qed.

Lemma subseq_nil_l {A : Type} (l : list A) : subseq [] l.
Proof. induction l; constructor; assumption. Qed.

Lemma subseq_In {A : Type} (l k : list A) x : subseq l k -> In x l -> In x k.
Proof.
  induction 1 as [|y l k _ IH|y l k _ IH]; simpl; intros Hin; auto.
  destruct Hin; auto.
Qed.

Lemma subseq_NoDup {A : Type} (l k : list A) : subseq l k -> NoDup k -> NoDup l.
Proof.
  induction 1 as [|y l k _ IH|y l k Hs IH]; intros Hk.
  - constructor.
  - inversion Hk; auto.
  - inversion Hk as [|? ? Hy Hk']; subst. constructor; auto.
    intros Hin. apply Hy. eapply subseq_In; eauto.
Qed.

(** The unmatched specs of a trace are among its attempted specs, in the
    same order. *)
Lemma unmatched_specs_attempted (t : list event) :
  subseq (unmatched_specs marking t) (attempted_specs t).
Proof.
  induction t as [|ev t IH]; simpl; [constructor|].
  destruct ev; simpl; try exact IH.
  destruct r as [e|]; [destruct (marking e)|]; simpl; constructor; exact IH.
Qed.

(** [_install_files]: one call of the file intake, then the loop over what
    it handed back; when the loop returns, the result is the packages whose
    install raised a [MarkingError], in intake order. *)
Lemma _install_files_yields opts conf w :
  yields (_install_files base opts conf) w
    (fun t _ v =>
       exists loop,
         t = add_remote_rpms_call (filenames opts) (strict conf)
               (snd (add_remote_rpms base (filenames opts) (strict conf) w)) :: loop
         /\ Forall (fun ev => is_file_loop_event ev = true) loop
         /\ match v with
            | Return err_pkgs =>
                err_pkgs = unmatched_pkgs marking t
                /\ subseq err_pkgs (intake_pkgs t)
            | Raise r =>
                exists e p w0,
                  r = Propagated e /\ marking e = false
                  /\ snd (package_install base p (strict conf) w0) = Some e
            end).
Proof.
  unfold _install_files. cbv zeta. step. step.
  match goal with
  | |- yields (for_each _ ?body _) _ _ =>
      enough (H : forall l acc w,
        yields (for_each l body acc) w
          (fun t _ v =>
             Forall (fun ev => is_file_loop_event ev = true) t
             /\ intake_pkgs t = []
             /\ match v with
                | Return err_pkgs =>
                    err_pkgs = acc ++ unmatched_pkgs marking t
                    /\ subseq (unmatched_pkgs marking t) l
                | Raise r =>
                    exists e p w0,
                      r = Propagated e /\ marking e = false
                      /\ snd (package_install base p (strict conf) w0) = Some e
                end))
  end.
  { eapply yields_weaken; [apply H|]. intros t w' v (Ht & Hin & Hv).
    exists t. split; [reflexivity|]. split; [exact Ht|].
    destruct v; [|exact Hv]. simpl. rewrite Hin, app_nil_r.
    destruct Hv as [Ha Hsub]. simpl in Ha. subst. auto. }
  clear w. induction l as [|x l IH]; intros acc w.
  - simpl for_each. step. rewrite app_nil_r. repeat split; auto. constructor.
  - simpl for_each. step. step. step.
    destruct (snd (package_install base x (strict conf) w)) as [e|] eqn:E.
    + destruct (marking e) eqn:Em.
      * step. step. step.
        eapply yields_weaken; [apply IH|]. intros t w' v (Ht & Hin & Hv).
        simpl. rewrite Em. split; [repeat constructor; exact Ht|].
        split; [exact Hin|].
        destruct v as [errs|r]; [|exact Hv].
        destruct Hv as (Herrs & Hsub).
        split; [rewrite Herrs, <- app_assoc; reflexivity|].
        simpl. apply subseq_keep. exact Hsub.
      * step. split; [repeat constructor|]. split; [reflexivity|].
        exists e, x, w. auto.
    + step. eapply yields_weaken; [apply IH|]. intros t w' v (Ht & Hin & Hv).
      simpl. split; [repeat constructor; exact Ht|]. split; [exact Hin|].
      destruct v as [errs|r]; [|exact Hv].
      destruct Hv as (Herrs & Hsub).
      split; [exact Herrs|]. apply subseq_skip. exact Hsub.
Qed.

(** *** [run], step by step *)

Lemma run_steps opts conf :
  run base opts conf =
  (let forms := _get_nevra_forms_from_command opts in
   apply_security_filter base opts ;;
   check_localinstall_usage base opts conf ;;
   skipped_grp_specs <- resolve_modules base opts ;;
   err_pkgs <- files_step base opts conf forms ;;
   groups_step base opts conf forms skipped_grp_specs ;;
   errs <- packages_step base opts conf forms ;;
   finalize conf errs err_pkgs).
Proof. reflexivity. Qed.

Lemma check_localinstall_usage_yields opts conf w :
  yields (check_localinstall_usage base opts conf) w
    (fun t w' v =>
       Forall (fun ev => is_log ev = true) t /\ w' = w
       /\ v = if is_localinstall opts
                 && (truthy (grp_specs opts) || truthy (pkg_specs opts))
                 && strict conf
              then Raise (Error "Nothing to do.") else Return tt).
Proof.
  unfold check_localinstall_usage.
  destruct (is_localinstall opts && (truthy (grp_specs opts) || truthy (pkg_specs opts))).
  - step. eapply yields_weaken; [apply _log_not_valid_rpm_file_paths_yields|].
    intros t w' v (Ht & -> & ->). simpl.
    destruct (strict conf); step; rewrite app_nil_r; auto.
  - step. auto.
Qed.

Lemma resolve_modules_yields opts w :
  yields (resolve_modules base opts) w
    (fun t _ v =>
       Forall (fun ev => is_install_module_call ev = true) t
       /\ exists skipped, v = Return skipped).
Proof.
  unfold resolve_modules.
  destruct (truthy (grp_specs opts) && negb (is_localinstall opts)); step.
  - split; [repeat constructor | eauto].
  - split; [constructor | eauto].
Qed.

Lemma files_step_yields opts conf forms w :
  yields (files_step base opts conf forms) w
    (fun t _ v =>
       Forall (fun ev => is_file_phase_event ev = true) t
       /\ filter is_add_remote_rpms_call t
          = (if truthy (filenames opts) && truthy forms then []
             else [add_remote_rpms_call (filenames opts) (strict conf)
                     (snd (add_remote_rpms base (filenames opts) (strict conf) w))])
       /\ match v with
          | Return err_pkgs =>
              err_pkgs = unmatched_pkgs marking t /\ subseq err_pkgs (intake_pkgs t)
          | Raise (Error msg) => msg = "Nothing to do." /\ strict conf = true
          | Raise (Propagated e) =>
              marking e = false
              /\ exists p w0, snd (package_install base p (strict conf) w0) = Some e
          | Raise (PackagesNotAvailableError _ _ _) => False
          end).
Proof.
  unfold files_step. destruct (truthy (filenames opts) && truthy forms).
  - step. eapply yields_weaken; [apply _inform_not_a_valid_combination_yields|].
    intros t w' v (Ht & -> & ->). simpl.
    assert (Hquiet : Forall (fun ev : event => is_file_phase_event ev = true) t
                     /\ filter is_add_remote_rpms_call t = []
                     /\ unmatched_pkgs marking t = [] /\ intake_pkgs t = []).
    { clear -Ht. induction Ht as [|ev t Hev _ IH]; [repeat split; constructor|].
      destruct IH as (IH1 & IH2 & IH3 & IH4).
      destruct ev; simpl in *; try discriminate; repeat split; auto. }
    destruct Hquiet as (H1 & H2 & H3 & H4).
    destruct (strict conf); step; rewrite app_nil_r; repeat split; auto.
    rewrite H4. constructor.
  - eapply yields_weaken; [apply _install_files_yields|].
    intros t w' v (loop & -> & Hloop & Hv).
    assert (Hquiet : Forall (fun ev : event => is_file_phase_event ev = true) loop
                     /\ filter is_add_remote_rpms_call loop = []).
    { clear -Hloop. induction Hloop as [|ev t Hev _ IH]; [split; constructor|].
      destruct IH as (IH1 & IH2).
      destruct ev; simpl in *; try discriminate; split; auto. }
    destruct Hquiet as (H1 & H2).
    split; [constructor; [reflexivity | exact H1]|].
    split; [simpl; rewrite H2; reflexivity|].
    destruct v as [err_pkgs|r]; [exact Hv|].
    destruct Hv as (e & p & w0 & -> & Hm & He). eauto.
Qed.

Lemma _install_groups_yields opts conf specs w :
  yields (_install_groups base opts conf specs) w
    (fun t w' v =>
       let g := env_group_install base (grp_specs opts) (group_package_types conf)
                  (strict conf) (read_comps base true w) in
       t = [read_comps_call true;
            env_group_install_call (grp_specs opts) (group_package_types conf)
              (strict conf) (snd g)]
       /\ w' = fst g
       /\ v = match snd g with
              | None => Return tt
              | Some e =>
                  if isinstance_Error base e && negb (strict conf)
                  then Return tt else Raise (Propagated e)
              end).
Proof.
  unfold _install_groups. step. step. step. step.
  destruct (snd (env_group_install base (grp_specs opts) (group_package_types conf)
                   (strict conf) (read_comps base true w))) as [e|].
  - destruct (isinstance_Error base e); [destruct (strict conf)|]; step; auto.
  - step. auto.
Qed.

(** The group step ends in one of two ways: it only logged (no skipped
    group, or the conflict with a NEVRA form), or it ran
    [_install_groups]. *)
Lemma groups_step_yields opts conf forms skipped w :
  yields (groups_step base opts conf forms skipped) w
    (fun t w' v =>
       (Forall (fun ev => is_log ev = true) t /\ w' = w
        /\ (v = Return tt
            \/ v = Raise (Error "Nothing to do.") /\ strict conf = true))
       \/ (is_localinstall opts = false
           /\ yields (_install_groups base opts conf skipped) w
                (fun t0 w0 v0 => t = t0 /\ w' = w0 /\ v = v0))).
Proof.
  unfold groups_step. destruct (truthy skipped && truthy forms).
  - step. eapply yields_weaken; [apply _inform_not_a_valid_combination_yields|].
    intros t w' v (Ht & -> & ->). simpl.
    destruct (strict conf) eqn:Es; step; rewrite app_nil_r; left; auto.
  - destruct (truthy skipped); simpl.
    + destruct (is_localinstall opts) eqn:El; simpl.
      * step. left. auto.
      * right. split; [reflexivity|]. unfold yields. auto.
    + step. left. auto.
Qed.

Lemma packages_step_yields opts conf forms w :
  yields (packages_step base opts conf forms) w
    (fun t _ v =>
       Forall (fun ev => is_package_phase_event ev = true) t
       /\ match v with
          | Return errs =>
              errs = unmatched_specs marking t
              /\ (if is_localinstall opts then t = []
                  else attempted_specs t = pkg_specs opts
                       /\ List.length (queued_specs t) + List.length errs
                          = List.length (pkg_specs opts))
          | Raise r =>
              exists e spec w0,
                r = Propagated e /\ marking e = false
                /\ snd (install base spec (strict conf) forms w0) = Some e
          end).
Proof.
  unfold packages_step. destruct (is_localinstall opts); simpl.
  - step. auto.
  - eapply yields_weaken; [apply _install_packages_yields|].
    intros t w' v [Ht Hv]. split; [exact Ht|].
    destruct v; [|exact Hv]. tauto.
Qed.

(** Trace entries of a kind [p] that a reading [f] of the trace skips. *)
Lemma flat_map_silent {B : Type} (p : event -> bool) (t : list event)
    (H : Forall (fun ev => p ev = true) t) (f : event -> list B) :
  (forall ev, p ev = true -> f ev = []) -> flat_map f t = [].
Proof.
  intros Hf. induction H as [|ev t Hev _ IH]; simpl; [reflexivity|].
  rewrite (Hf ev Hev), IH. reflexivity.
Qed.

Ltac skipped_kind := intros [] Hev; simpl in *; try discriminate; reflexivity.

Lemma groups_step_summary opts conf forms skipped w :
  yields (groups_step base opts conf forms skipped) w
    (fun t _ v =>
       Forall (fun ev => is_log ev || is_group_install_call ev = true) t
       /\ match v with
          | Return _ => True
          | Raise (Error msg) => msg = "Nothing to do." /\ strict conf = true
          | Raise (Propagated e) =>
              (strict conf = true \/ isinstance_Error base e = false)
              /\ exists w0,
                   snd (env_group_install base (grp_specs opts)
                          (group_package_types conf) (strict conf) w0) = Some e
          | Raise (PackagesNotAvailableError _ _ _) => False
          end).
Proof.
  eapply yields_weaken; [apply groups_step_yields|].
  intros t w' v [(Ht & _ & Hv)|(_ & Hg)].
  - split.
    + eapply Forall_impl; [|exact Ht]. intros ev Hev. simpl in Hev.
      rewrite Hev. reflexivity.
    + destruct Hv as [->|[-> Hs]]; auto.
  - pose proof (_install_groups_yields opts conf skipped w) as Hi.
    unfold yields in Hg, Hi. destruct Hg as (-> & _ & ->).
    cbv zeta in Hi. destruct Hi as (Ht & _ & Hv). rewrite Ht, Hv.
    split; [repeat constructor|].
    destruct (snd (env_group_install base (grp_specs opts) (group_package_types conf)
                     (strict conf) (read_comps base true w))) as [e|] eqn:E; [|exact I].
    destruct (isinstance_Error base e) eqn:Ee; simpl.
    + destruct (strict conf) eqn:Es; simpl; [|exact I]. split; [auto | eauto].
    + split; [auto | eauto].
Qed.

(** How a run ends.  It raises "Nothing to do." only under strictness; an
    engine exception leaves it only when no [except] clause holds it back;
    in every other case the run reached its last statement, which decides on
    the unmatched specs and packages the trace shows. *)
Lemma run_yields opts conf w :
  yields (run base opts conf) w
    (fun t _ v =>
       match v with
       | Raise (Error msg) => msg = "Nothing to do." /\ strict conf = true
       | Raise (Propagated e) =>
           (marking e = false
            /\ ((exists p w0, snd (package_install base p (strict conf) w0) = Some e)
                \/ (exists spec w0,
                      snd (install base spec (strict conf)
                             (_get_nevra_forms_from_command opts) w0) = Some e)))
           \/ ((strict conf = true \/ isinstance_Error base e = false)
               /\ exists w0,
                    snd (env_group_install base (grp_specs opts)
                           (group_package_types conf) (strict conf) w0) = Some e)
       | _ =>
           v = (if (negb (Nat.eqb (List.length (unmatched_specs marking t)) 0)
                    || negb (Nat.eqb (List.length (unmatched_pkgs marking t)) 0))
                   && strict conf
                then Raise (PackagesNotAvailableError "Unable to find a match"
                              (String.concat " " (unmatched_specs marking t))
                              (unmatched_pkgs marking t))
                else Return tt)
           /\ subseq (unmatched_pkgs marking t) (intake_pkgs t)
           /\ (if is_localinstall opts then attempted_specs t = []
               else attempted_specs t = pkg_specs opts
                    /\ List.length (queued_specs t)
                       + List.length (unmatched_specs marking t)
                       = List.length (pkg_specs opts))
       end).
Proof.
  rewrite run_steps. cbv zeta. step. unfold apply_security_filter. step. step.
  eapply yields_weaken; [apply check_localinstall_usage_yields|].
  intros tB wB v (HB & -> & ->).
  destruct (is_localinstall opts && (truthy (grp_specs opts) || truthy (pkg_specs opts))
            && strict conf) eqn:Eusage.
  { apply andb_prop in Eusage. tauto. }
  clear Eusage. step.
  eapply yields_weaken; [apply resolve_modules_yields|].
  intros tC wC v (HC & skipped & ->). step.
  eapply yields_weaken; [apply files_step_yields|].
  intros tD wD v (HD & _ & Hv).
  destruct v as [err_pkgs|[msg|? ? ?|e]]; [|exact Hv|contradiction|tauto].
  destruct Hv as [Hpkgs Hsub]. step.
  eapply yields_weaken; [apply groups_step_summary|].
  intros tE wE v (HE & Hv).
  destruct v as [[]|[msg|? ? ?|e]]; [|exact Hv|contradiction|tauto]. clear Hv. step.
  eapply yields_weaken; [apply packages_step_yields|].
  intros tF wF v (HF & Hv).
  destruct v as [errs|r].
  2:{ destruct Hv as (e & spec & w0 & -> & Hm & He). left. eauto. }
  destruct Hv as [Herrs Hatt].
  assert (HT : forall T,
    T = [populate_update_security_filter_call opts (sack_query base w)]
        ++ tB ++ tC ++ tD ++ tE ++ tF ++ [] ->
    unmatched_specs marking T = errs /\ unmatched_pkgs marking T = err_pkgs
    /\ intake_pkgs T = intake_pkgs tD /\ attempted_specs T = attempted_specs tF
    /\ queued_specs T = queued_specs tF).
  { intros T ->. rewrite Herrs, Hpkgs.
    unfold unmatched_specs, unmatched_pkgs, intake_pkgs, attempted_specs, queued_specs.
    rewrite !flat_map_app.
    rewrite !(flat_map_silent _ _ HB) by skipped_kind.
    rewrite !(flat_map_silent _ _ HC) by skipped_kind.
    rewrite !(flat_map_silent _ _ HE) by skipped_kind.
    repeat match goal with
           | |- context [flat_map ?f tD] =>
               rewrite (flat_map_silent _ _ HD f) by skipped_kind
           | |- context [flat_map ?f tF] =>
               rewrite (flat_map_silent _ _ HF f) by skipped_kind
           end.
    simpl. rewrite !app_nil_r. auto. }
  unfold finalize.
  destruct (HT _ eq_refl) as (H1 & H2 & H3 & H4 & H5). rewrite app_nil_r in *.
  assert (Hsub' : subseq err_pkgs (intake_pkgs tD)) by exact Hsub.
  destruct ((negb (Nat.eqb (List.length errs) 0)
             || negb (Nat.eqb (List.length err_pkgs) 0)) && strict conf) eqn:Efin;
    step; rewrite app_nil_r, H1, H2, H3, H4, H5, Efin;
    (split; [reflexivity|]); (split; [exact Hsub'|]);
    (destruct (is_localinstall opts); [rewrite Hatt; reflexivity | exact Hatt]).
Qed.

Lemma length_eqb_0 {A : Type} (l : list A) :
  negb (Nat.eqb (List.length l) 0) = truthy l.
Proof. destruct l; reflexivity. Qed.

Lemma subseq_nil_r {A : Type} (l : list A) : subseq l [] -> l = [].
Proof. inversion 1. reflexivity. Qed.

Lemma unmatched_specs_requested opts (t : list event) (P : Prop) :
  (if is_localinstall opts then attempted_specs t = []
   else attempted_specs t = pkg_specs opts /\ P) ->
  subseq (unmatched_specs marking t) (pkg_specs opts).
Proof.
  intros Hatt. pose proof (unmatched_specs_attempted t) as Hsub.
  destruct (is_localinstall opts).
  - rewrite Hatt in Hsub. apply subseq_nil_r in Hsub. rewrite Hsub.
    apply subseq_nil_l.
  - destruct Hatt as [Hatt _]. rewrite Hatt in Hsub. exact Hsub.
Qed.

(** C9: when the aggregate error is raised, its [pkg_spec] field is the
    specs whose install raised a [MarkingError], joined with single spaces;
    these are specs of the request, in the order of its package-spec list.
    The field does not keep the specs apart: one spec with a space in it and
    the two specs around the space give the same field. *)
Theorem C9_pkg_spec_joins_unmatched_specs opts conf w msg s ps :
  value (run base opts conf w) = Raise (PackagesNotAvailableError msg s ps) ->
  s = String.concat " " (unmatched_specs marking (trace (run base opts conf w)))
  /\ subseq (unmatched_specs marking (trace (run base opts conf w))) (pkg_specs opts)
  /\ (forall a b : string,
        [a ++ " " ++ b]%string <> [a; b]
        /\ String.concat " " [a ++ " " ++ b]%string = String.concat " " [a; b]).
Proof.
  intros Hv. pose proof (run_yields opts conf w) as H. unfold yields in H.
  rewrite Hv in H. destruct H as (Hfin & _ & Hatt).
  split; [|split].
  - destruct (_ && strict conf) in Hfin; [|discriminate].
    injection Hfin as _ Hs _. exact Hs.
  - eapply unmatched_specs_requested. exact Hatt.
  - intros a b. split; [discriminate | reflexivity].
Qed.

(** C3, amended: once a run has reached its last statement, it raises the
    aggregate error exactly when strictness is on and some per-spec or
    per-file install raised a [MarkingError]; [pkg_spec] is then those specs
    joined and [packages] those packages, one entry for each failed install,
    none left out, in call order.  An entry comes twice when the request
    (or the file intake) names a target twice: the payload is free of
    duplicates when the package-spec list and the intake's list are. *)
Theorem C3_aggregate_error_payload opts conf w :
  let t := trace (run base opts conf w) in
  let v := value (run base opts conf w) in
  let errs := unmatched_specs marking t in
  let err_pkgs := unmatched_pkgs marking t in
  reaches_last_statement v ->
  ((exists msg s ps, v = Raise (PackagesNotAvailableError msg s ps))
   <-> strict conf = true /\ (errs <> [] \/ err_pkgs <> []))
  /\ (forall msg s ps,
        v = Raise (PackagesNotAvailableError msg s ps) ->
        msg = "Unable to find a match" /\ s = String.concat " " errs /\ ps = err_pkgs)
  /\ subseq errs (pkg_specs opts)
  /\ subseq err_pkgs (intake_pkgs t)
  /\ (NoDup (pkg_specs opts) -> NoDup errs)
  /\ (NoDup (intake_pkgs t) -> NoDup err_pkgs).
Proof.
  intros t v errs err_pkgs Hreach.
  pose proof (run_yields opts conf w) as H. unfold yields in H.
  fold t v errs err_pkgs in H.
  assert (Hmain :
    v = (if (truthy errs || truthy err_pkgs) && strict conf
         then Raise (PackagesNotAvailableError "Unable to find a match"
                       (String.concat " " errs) err_pkgs)
         else Return tt)
    /\ subseq err_pkgs (intake_pkgs t)
    /\ subseq errs (pkg_specs opts)).
  { destruct v as [[]|[m|m s ps|e]]; try contradiction.
    - destruct H as (Hv & Hsub & Hatt). rewrite !length_eqb_0 in Hv.
      split; [exact Hv|]. split; [exact Hsub|].
      eapply unmatched_specs_requested. exact Hatt.
    - destruct H as (Hv & Hsub & Hatt). rewrite !length_eqb_0 in Hv.
      split; [exact Hv|]. split; [exact Hsub|].
      eapply unmatched_specs_requested. exact Hatt. }
  destruct Hmain as (Hv & Hsubp & Hsubs).
  split; [|split; [|split; [exact Hsubs|split; [exact Hsubp|split]]]].
  - rewrite Hv. split.
    + intros (msg & s & ps & E).
      destruct (truthy errs || truthy err_pkgs) eqn:Et; simpl in E;
        [|discriminate].
      destruct (strict conf); [|discriminate]. split; [reflexivity|].
      apply orb_prop in Et. destruct Et as [Et|Et]; [left|right];
        intros E0; rewrite E0 in Et; discriminate.
    + intros [Hs Hne]. rewrite Hs.
      assert (Et : truthy errs || truthy err_pkgs = true).
      { destruct Hne as [Hne|Hne]; apply truthy_true in Hne; rewrite Hne;
          [reflexivity | apply orb_true_r]. }
      rewrite Et. simpl. eauto.
  - intros msg s ps E. rewrite Hv in E.
    destruct ((truthy errs || truthy err_pkgs) && strict conf); [|discriminate].
    injection E as <- <- <-. auto.
  - intros Hnd. eapply subseq_NoDup; eauto.
  - intros Hnd. eapply subseq_NoDup; eauto.
Qed.


Lemma emits_only_yields {A : Type} (p : event -> bool) (m : M A) w :
  emits_only p m -> yields m w (fun t _ _ => Forall (fun ev => p ev = true) t).
Proof. intros H. apply H. Qed.

(** The loop of [_install_files], call by call: each package is handed to
    [base.package_install] on the engine as the installs before it left it,
    the loop ends on the engine as its last install left it, and it gets
    through the whole list unless an install raises what the [except] clause
    lets through. *)
Lemma _install_files_loop_yields opts conf w :
  let step := fun w p => fst (package_install base p (strict conf) w) in
  yields (_install_files base opts conf) w
    (fun t w' v =>
       let intake := add_remote_rpms base (filenames opts) (strict conf) w in
       exists loop,
         t = add_remote_rpms_call (filenames opts) (strict conf) (snd intake) :: loop
         /\ Forall (fun ev => is_file_loop_event ev = true) loop
         /\ w' = fold_left step (file_installs loop) (fst intake)
         /\ (forall t1 p s r t2,
               loop = t1 ++ package_install_call p s r :: t2 ->
               s = strict conf
               /\ r = snd (package_install base p (strict conf)
                             (fold_left step (file_installs t1) (fst intake))))
         /\ match v with
            | Return err_pkgs =>
                snd intake = file_installs loop
                /\ err_pkgs = unmatched_pkgs marking loop
            | Raise r =>
                exists e rest,
                  r = Propagated e /\ marking e = false
                  /\ snd intake = file_installs loop ++ rest
            end).
Proof.
  intros step. unfold _install_files. cbv zeta. step. step.
  match goal with
  | |- yields (for_each ?l0 ?body ?acc0) ?w0 _ =>
      enough (H : forall l acc w,
        yields (for_each l body acc) w
          (fun t w' v =>
             Forall (fun ev => is_file_loop_event ev = true) t
             /\ w' = fold_left step (file_installs t) w
             /\ (forall t1 p s r t2,
                   t = t1 ++ package_install_call p s r :: t2 ->
                   s = strict conf
                   /\ r = snd (package_install base p (strict conf)
                                 (fold_left step (file_installs t1) w)))
             /\ match v with
                | Return err_pkgs =>
                    l = file_installs t
                    /\ err_pkgs = acc ++ unmatched_pkgs marking t
                | Raise r =>
                    exists e rest,
                      r = Propagated e /\ marking e = false
                      /\ l = file_installs t ++ rest
                end))
  end.
  { eapply yields_weaken; [apply H|]. intros t w' v (Ht & Hw & Hpin & Hv).
    exists t. split; [reflexivity|]. split; [exact Ht|]. split; [exact Hw|].
    split; [exact Hpin|]. destruct v; [|exact Hv]. exact Hv. }
  clear w. induction l as [|x l IH]; intros acc w.
  - simpl for_each. step. split; [constructor|]. split; [reflexivity|].
    split; [|rewrite app_nil_r; auto].
    intros t1 p s r t2 E. destruct t1; discriminate.
  - simpl for_each. step. step. step.
    destruct (snd (package_install base x (strict conf) w)) as [e|] eqn:E.
    + destruct (marking e) eqn:Em.
      * step. step. step.
        eapply yields_weaken; [apply IH|]. intros t w' v (Ht & Hw & Hpin & Hv).
        simpl. rewrite Em. split; [repeat constructor; exact Ht|].
        split; [exact Hw|]. split.
        -- intros t1 p s r t2 Esplit. destruct t1 as [|ev1 t1].
           ++ injection Esplit as <- <- <- _. auto.
           ++ injection Esplit as <- Esplit. destruct t1 as [|ev2 t1].
              ** discriminate.
              ** injection Esplit as <- Esplit. simpl. apply (Hpin _ _ _ _ _ Esplit).
        -- destruct v as [errs|r].
           ++ destruct Hv as [-> ->]. rewrite <- app_assoc. auto.
           ++ destruct Hv as (e' & rest & -> & Hm & ->). eauto.
      * step. simpl. split; [repeat constructor|]. split; [reflexivity|]. split.
        -- intros t1 p s r t2 Esplit. destruct t1 as [|ev1 t1].
           ++ injection Esplit as <- <- <- _. auto.
           ++ injection Esplit as _ Esplit. destruct t1; discriminate.
        -- exists e, l. auto.
    + step. eapply yields_weaken; [apply IH|]. intros t w' v (Ht & Hw & Hpin & Hv).
      simpl. split; [repeat constructor; exact Ht|]. split; [exact Hw|]. split.
      * intros t1 p s r t2 Esplit. destruct t1 as [|ev1 t1].
        -- injection Esplit as <- <- <- _. auto.
        -- injection Esplit as <- Esplit. simpl. apply (Hpin _ _ _ _ _ Esplit).
      * destruct v as [errs|r].
        -- destruct Hv as [-> ->]. auto.
        -- destruct Hv as (e' & rest & -> & Hm & ->). eauto.
Qed.


(** Without the conflict of file paths and a NEVRA form, a run that gets
    past the [localinstall] usage check has one file intake in its trace. *)
Lemma one_file_intake opts conf w :
  filenames opts = [] \/ _get_nevra_forms_from_command opts = [] ->
  (command opts = ["localinstall"] ->
   (grp_specs opts = [] /\ pkg_specs opts = []) \/ strict conf = false) ->
  let t := trace (run base opts conf w) in
  count is_add_remote_rpms_call t = 1
  /\ exists w0,
       filter is_add_remote_rpms_call t
       = [add_remote_rpms_call (filenames opts) (strict conf)
            (snd (add_remote_rpms base (filenames opts) (strict conf) w0))].
Proof.
  intros Hnoconflict Husage t.
  enough (H : exists w0,
    filter is_add_remote_rpms_call t
    = [add_remote_rpms_call (filenames opts) (strict conf)
         (snd (add_remote_rpms base (filenames opts) (strict conf) w0))]).
  { split; [|exact H]. destruct H as [w0 H]. unfold count. rewrite H. reflexivity. }
  assert (Hc : truthy (filenames opts) && truthy (_get_nevra_forms_from_command opts)
               = false).
  { destruct Hnoconflict as [-> | ->]; [reflexivity | apply andb_false_r]. }
  assert (Hu : is_localinstall opts
               && (truthy (grp_specs opts) || truthy (pkg_specs opts))
               && strict conf = false).
  { unfold is_localinstall.
    destruct (list_eq_dec string_dec (command opts) ["localinstall"]) as [E|];
      [|reflexivity].
    destruct (Husage E) as [[-> ->] | ->]; [reflexivity | apply andb_false_r]. }
  subst t.
  change (yields (run base opts conf) w (fun t _ _ => exists w0,
    filter is_add_remote_rpms_call t
    = [add_remote_rpms_call (filenames opts) (strict conf)
         (snd (add_remote_rpms base (filenames opts) (strict conf) w0))])).
  rewrite run_steps. cbv zeta. step. unfold apply_security_filter. step. step.
  eapply yields_weaken; [apply check_localinstall_usage_yields|].
  intros tB wB v (HB & -> & ->). rewrite Hu. step.
  eapply yields_weaken; [apply resolve_modules_yields|].
  intros tC wC v (HC & skipped & ->). step.
  eapply yields_weaken; [apply files_step_yields|].
  intros tD wD v (_ & HD & _). rewrite Hc in HD.
  assert (Hpre : forall rest,
    Forall (fun ev => negb (is_add_remote_rpms_call ev) = true) rest ->
    filter is_add_remote_rpms_call
      ([populate_update_security_filter_call opts (sack_query base w)]
       ++ tB ++ tC ++ tD ++ rest)
    = [add_remote_rpms_call (filenames opts) (strict conf)
         (snd (add_remote_rpms base (filenames opts) (strict conf) wC))]).
  { intros rest Hrest. rewrite !filter_app. rewrite HD. simpl.
    rewrite (filter_none _ rest Hrest).
    rewrite (filter_none _ tB), (filter_none _ tC); [reflexivity| |].
    - eapply Forall_impl; [|exact HC]. intros [] Hev; simpl in *; congruence.
    - eapply Forall_impl; [|exact HB]. intros [] Hev; simpl in *; congruence. }
  destruct v as [err_pkgs|r].
  - eapply yields_weaken.
    + apply (emits_only_yields (fun ev => negb (is_add_remote_rpms_call ev))).
      unfold groups_step, packages_step, finalize, _inform_not_a_valid_combination,
        _install_groups, _install_packages. emits.
    + intros t w' v' Ht. simpl in Ht. exists wC. apply Hpre. exact Ht.
  - exists wC. rewrite <- (app_nil_r tD). apply Hpre. constructor.
Qed.

(** C10: when the request does not pair file paths with a NEVRA form and
    the run gets past the [localinstall] usage check, the file phase is
    executed.  The file intake is called exactly once, with the request's
    path list as it is, empty or not, on the engine as module resolution
    (or, without it, the security filter) left it.  Every package the
    intake returned is then handed to [base.package_install], in order, each
    on the engine as the installs before it left it.  If none of these
    raises an exception that is no [MarkingError], the rest of the run
    follows on the engine as the last install left it, with the unmatched
    packages as [err_pkgs]; otherwise the run ends there with that
    exception. *)
Theorem C10_file_intake_called_once opts conf w :
  filenames opts = [] \/ _get_nevra_forms_from_command opts = [] ->
  (command opts = ["localinstall"] ->
   (grp_specs opts = [] /\ pkg_specs opts = []) \/ strict conf = false) ->
  let t := trace (run base opts conf w) in
  let forms := _get_nevra_forms_from_command opts in
  let filtered :=
    _populate_update_security_filter base opts (sack_query base w) w in
  let resolved := install_module base (grp_specs opts) (assumeyes opts) filtered in
  let resolves := truthy (grp_specs opts) && negb (is_localinstall opts) in
  let w0 := if resolves then fst resolved else filtered in
  let skipped := if resolves then snd resolved else grp_specs opts in
  let intake := add_remote_rpms base (filenames opts) (strict conf) w0 in
  let step := fun w p => fst (package_install base p (strict conf) w) in
  count is_add_remote_rpms_call t = 1
  /\ (exists w0,
        filter is_add_remote_rpms_call t
        = [add_remote_rpms_call (filenames opts) (strict conf)
             (snd (add_remote_rpms base (filenames opts) (strict conf) w0))])
  /\ exists pre loop post,
       t = pre ++ add_remote_rpms_call (filenames opts) (strict conf) (snd intake)
                  :: loop ++ post
       /\ Forall (fun ev => is_add_remote_rpms_call ev = false
                            /\ is_package_install_call ev = false) pre
       /\ Forall (fun ev => is_file_loop_event ev = true) loop
       /\ (forall t1 p s r t2,
             loop = t1 ++ package_install_call p s r :: t2 ->
             s = strict conf
             /\ r = snd (package_install base p (strict conf)
                           (fold_left step (file_installs t1) (fst intake))))
       /\ let after := fold_left step (file_installs loop) (fst intake) in
          let rest_of_run :=
            run_after_files base opts conf forms skipped
              (unmatched_pkgs marking loop) after in
          (snd intake = file_installs loop
           /\ post = trace rest_of_run
           /\ value (run base opts conf w) = value rest_of_run
           /\ final (run base opts conf w) = final rest_of_run)
          \/ (exists e rest,
                snd intake = file_installs loop ++ rest
                /\ marking e = false
                /\ post = []
                /\ value (run base opts conf w) = Raise (Propagated e)
                /\ final (run base opts conf w) = after).
Proof.
  intros Hnoconflict Husage.
  destruct (one_file_intake opts conf w Hnoconflict Husage) as [Hcount Hfilter].
  cbv zeta in Hcount, Hfilter. cbv zeta.
  split; [exact Hcount|]. split; [exact Hfilter|]. clear Hcount Hfilter.
  assert (Hc : truthy (filenames opts) && truthy (_get_nevra_forms_from_command opts)
               = false).
  { destruct Hnoconflict as [-> | ->]; [reflexivity | apply andb_false_r]. }
  assert (Hu : is_localinstall opts
               && (truthy (grp_specs opts) || truthy (pkg_specs opts))
               && strict conf = false).
  { unfold is_localinstall.
    destruct (list_eq_dec string_dec (command opts) ["localinstall"]) as [E|];
      [|reflexivity].
    destruct (Husage E) as [[-> ->] | ->]; [reflexivity | apply andb_false_r]. }
  set (forms := _get_nevra_forms_from_command opts) in *.
  set (filtered := _populate_update_security_filter base opts (sack_query base w) w).
  set (step := fun w p => fst (package_install base p (strict conf) w)).
  assert (Hfiles : forall pre skipped w0,
    Forall (fun ev => is_add_remote_rpms_call ev = false
                      /\ is_package_install_call ev = false) pre ->
    yields (bind (files_step base opts conf forms)
              (fun err_pkgs => run_after_files base opts conf forms skipped err_pkgs))
      w0
      (fun t2 w' v =>
         let intake := add_remote_rpms base (filenames opts) (strict conf) w0 in
         exists pre' loop post,
           pre ++ t2
           = pre' ++ add_remote_rpms_call (filenames opts) (strict conf) (snd intake)
                     :: loop ++ post
           /\ Forall (fun ev => is_add_remote_rpms_call ev = false
                                /\ is_package_install_call ev = false) pre'
           /\ Forall (fun ev => is_file_loop_event ev = true) loop
           /\ (forall t1 p s r t2,
                 loop = t1 ++ package_install_call p s r :: t2 ->
                 s = strict conf
                 /\ r = snd (package_install base p (strict conf)
                               (fold_left step (file_installs t1) (fst intake))))
           /\ let after := fold_left step (file_installs loop) (fst intake) in
              let rest_of_run :=
                run_after_files base opts conf forms skipped
                  (unmatched_pkgs marking loop) after in
              (snd intake = file_installs loop
               /\ post = trace rest_of_run
               /\ v = value rest_of_run
               /\ w' = final rest_of_run)
              \/ (exists e rest,
                    snd intake = file_installs loop ++ rest
                    /\ marking e = false
                    /\ post = []
                    /\ v = Raise (Propagated e)
                    /\ w' = after))).
  { intros pre skipped w0 Hpre. unfold files_step. rewrite Hc. step.
    eapply yields_weaken; [apply _install_files_loop_yields|].
    cbv zeta. fold step. intros tD wD v (loop & -> & Hloop & -> & Hpin & Hv).
    destruct v as [err_pkgs|r].
    - destruct Hv as [Hall ->]. unfold yields.
      exists pre, loop,
        (trace (run_after_files base opts conf forms skipped
                  (unmatched_pkgs marking loop)
                  (fold_left step (file_installs loop)
                     (fst (add_remote_rpms base (filenames opts) (strict conf) w0))))).
      split; [rewrite <- app_comm_cons; reflexivity|].
      split; [exact Hpre|]. split; [exact Hloop|]. split; [exact Hpin|].
      left. auto.
    - destruct Hv as (e & rest & -> & Hm & Hrest).
      exists pre, loop, []. rewrite app_nil_r.
      split; [reflexivity|].
      split; [exact Hpre|]. split; [exact Hloop|]. split; [exact Hpin|].
      right. exists e, rest. auto. }
  change (yields (run base opts conf) w (fun t w' v =>
    let resolved := install_module base (grp_specs opts) (assumeyes opts) filtered in
    let resolves := truthy (grp_specs opts) && negb (is_localinstall opts) in
    let w0 := if resolves then fst resolved else filtered in
    let skipped := if resolves then snd resolved else grp_specs opts in
    let intake := add_remote_rpms base (filenames opts) (strict conf) w0 in
    exists pre loop post,
      t = pre ++ add_remote_rpms_call (filenames opts) (strict conf) (snd intake)
                 :: loop ++ post
      /\ Forall (fun ev => is_add_remote_rpms_call ev = false
                           /\ is_package_install_call ev = false) pre
      /\ Forall (fun ev => is_file_loop_event ev = true) loop
      /\ (forall t1 p s r t2,
            loop = t1 ++ package_install_call p s r :: t2 ->
            s = strict conf
            /\ r = snd (package_install base p (strict conf)
                          (fold_left step (file_installs t1) (fst intake))))
      /\ let after := fold_left step (file_installs loop) (fst intake) in
         let rest_of_run :=
           run_after_files base opts conf forms skipped
             (unmatched_pkgs marking loop) after in
         (snd intake = file_installs loop
          /\ post = trace rest_of_run
          /\ v = value rest_of_run
          /\ w' = final rest_of_run)
         \/ (exists e rest,
               snd intake = file_installs loop ++ rest
               /\ marking e = false
               /\ post = []
               /\ v = Raise (Propagated e)
               /\ w' = after))).
  assert (Hrun : run base opts conf
                 = bind (apply_security_filter base opts)
                     (fun _ =>
                        bind (check_localinstall_usage base opts conf)
                          (fun _ =>
                             bind (resolve_modules base opts)
                               (fun skipped =>
                                  bind (files_step base opts conf forms)
                                    (fun err_pkgs =>
                                       run_after_files base opts conf forms
                                         skipped err_pkgs)))))
    by reflexivity.
  rewrite Hrun. step. unfold apply_security_filter. step. fold filtered. step.
  eapply yields_weaken; [apply check_localinstall_usage_yields|].
  intros tB wB v (HB & -> & ->). rewrite Hu. step.
  assert (HB' : Forall (fun ev => is_add_remote_rpms_call ev = false
                                  /\ is_package_install_call ev = false)
                  ([populate_update_security_filter_call opts (sack_query base w)]
                   ++ tB)).
  { apply Forall_app. split; [repeat constructor|].
    eapply Forall_impl; [|exact HB]. intros [] H; simpl in *; try discriminate; auto. }
  unfold resolve_modules. cbv zeta.
  destruct (truthy (grp_specs opts) && negb (is_localinstall opts)); step.
  - eapply yields_weaken.
    + apply (Hfiles (([populate_update_security_filter_call opts (sack_query base w)]
                      ++ tB)
                     ++ [install_module_call (grp_specs opts) (assumeyes opts)
                           (snd (install_module base (grp_specs opts) (assumeyes opts)
                                   filtered))])).
      apply Forall_app. split; [exact HB' | repeat constructor].
    + cbv zeta. intros t w' v H. rewrite <- !app_assoc in H. exact H.
  - eapply yields_weaken.
    + apply (Hfiles ([populate_update_security_filter_call opts (sack_query base w)]
                     ++ tB)). exact HB'.
    + cbv zeta. intros t w' v H. cbn [app] in H |- *. exact H.
Qed.

Lemma not_in_kind (p : event -> bool) (t : list event) ev :
  Forall (fun ev => p ev = true) t -> p ev = false -> ~ In ev t.
Proof.
  intros Ht Hev Hin. rewrite Forall_forall in Ht. apply Ht in Hin. congruence.
Qed.

(** C4, amended: when [env_group_install] raises [e] in a run, the run ends
    there with [e] exactly when strictness is on or [e] is not a
    [dnf.exceptions.Error].  With strictness off, a [dnf.exceptions.Error]
    from group installation is swallowed, be it a "not found" or not: the
    package phase follows as after a group installation that returned, and
    the run ends as the package phase does. *)
Theorem C4_group_error_fatal_iff_strict_or_foreign opts conf w specs types s e :
  let ev := env_group_install_call specs types s (Some e) in
  let forms := _get_nevra_forms_from_command opts in
  In ev (trace (run base opts conf w)) ->
  if strict conf || negb (isinstance_Error base e)
  then value (run base opts conf w) = Raise (Propagated e)
       /\ exists pre, trace (run base opts conf w) = pre ++ [ev]
  else exists pre w',
         trace (run base opts conf w)
         = pre ++ ev :: trace (_install_packages base opts conf forms w')
         /\ value (run base opts conf w)
            = match value (_install_packages base opts conf forms w') with
              | Return _ => Return tt
              | Raise r => Raise r
              end.
Proof.
  intros ev forms.
  change (yields (run base opts conf) w (fun t _ v =>
    In ev t ->
    if strict conf || negb (isinstance_Error base e)
    then v = Raise (Propagated e) /\ exists pre, t = pre ++ [ev]
    else exists pre w',
           t = pre ++ ev :: trace (_install_packages base opts conf forms w')
           /\ v = match value (_install_packages base opts conf forms w') with
                  | Return _ => Return tt
                  | Raise r => Raise r
                  end)).
  rewrite run_steps. cbv zeta. fold forms.
  step. unfold apply_security_filter. step. step.
  eapply yields_weaken; [apply check_localinstall_usage_yields|].
  intros tB wB v (HB & -> & Hv).
  assert (HB' : ~ In ev tB) by (eapply not_in_kind; [exact HB | reflexivity]).
  destruct v as [[]|r].
  2:{ intros [Hin|Hin]; [discriminate | contradiction]. }
  clear Hv. step.
  eapply yields_weaken; [apply resolve_modules_yields|].
  intros tC wC v (HC & skipped & ->).
  assert (HC' : ~ In ev tC) by (eapply not_in_kind; [exact HC | reflexivity]).
  step.
  eapply yields_weaken; [apply files_step_yields|].
  intros tD wD v (HD & _ & _).
  assert (HD' : ~ In ev tD) by (eapply not_in_kind; [exact HD | reflexivity]).
  assert (Hpre : forall rest,
    In ev ([populate_update_security_filter_call opts (sack_query base w)]
           ++ tB ++ tC ++ tD ++ rest) -> In ev rest).
  { intros rest Hin. rewrite !in_app_iff in Hin.
    destruct Hin as [[Hin|[]]|[Hin|[Hin|[Hin|Hin]]]];
      [discriminate | contradiction | contradiction | contradiction | exact Hin]. }
  destruct v as [err_pkgs|r].
  2:{ intros Hin. rewrite <- (app_nil_r tD) in Hin. apply Hpre in Hin.
      destruct Hin. }
  step.
  eapply yields_weaken; [apply groups_step_yields|].
  intros tE wE v [(HE & _ & Hv)|(Hloc & Hg)].
  - (* the group step only logged *)
    assert (HE' : ~ In ev tE) by (eapply not_in_kind; [exact HE | reflexivity]).
    destruct v as [[]|r].
    2:{ intros Hin. apply Hpre in Hin. contradiction. }
    step. eapply yields_weaken; [apply packages_step_yields|].
    intros tF wF v (HF & _).
    assert (HF' : ~ In ev tF) by (eapply not_in_kind; [exact HF | reflexivity]).
    assert (Hno : ~ In ev
      ([populate_update_security_filter_call opts (sack_query base w)]
       ++ tB ++ tC ++ tD ++ tE ++ tF)).
    { intros Hin. apply Hpre in Hin. apply in_app_or in Hin. tauto. }
    destruct v as [errs|r]; [|intros Hin; contradiction].
    unfold finalize. destruct (_ && strict conf); step; rewrite app_nil_r;
      intros Hin; contradiction.
  - (* the group step ran [_install_groups] *)
    pose proof (_install_groups_yields opts conf skipped wD) as Hi.
    unfold yields in Hg, Hi. cbv zeta in Hi.
    destruct Hg as (HtE & HwE & HvE). destruct Hi as (Ht & Hw & Hval).
    rewrite <- HtE in Ht. rewrite <- HwE in Hw. rewrite <- HvE in Hval.
    clear HtE HwE HvE.
    set (g := env_group_install base (grp_specs opts) (group_package_types conf)
                (strict conf) (read_comps base true wD)) in *.
    assert (Hin_groups : forall rest,
      In ev ([populate_update_security_filter_call opts (sack_query base w)]
             ++ tB ++ tC ++ tD ++ tE ++ rest) ->
      ~ In ev rest ->
      ev = env_group_install_call (grp_specs opts) (group_package_types conf)
             (strict conf) (snd g)).
    { intros rest Hin Hrest. apply Hpre in Hin. apply in_app_or in Hin.
      destruct Hin as [Hin|Hin]; [|contradiction]. rewrite Ht in Hin.
      destruct Hin as [Hin|[Hin|[]]]; [discriminate | symmetry; exact Hin]. }
    rewrite Hval. clear Hval v.
    destruct (snd g) as [e'|] eqn:Eg.
    + destruct (isinstance_Error base e' && negb (strict conf)) eqn:Eswallow.
      * (* swallowed: the package phase follows *)
        apply andb_prop in Eswallow. destruct Eswallow as [Hee Hns].
        apply negb_true_iff in Hns.
        unfold packages_step. rewrite Hloc. simpl negb. cbv iota.
        unfold yields, bind, finalize. rewrite Hns.
        destruct (value (_install_packages base opts conf forms wE)) as [errs|r] eqn:Ev;
          simpl; rewrite ?andb_false_r; simpl; rewrite ?app_nil_r; intros Hin.
        -- assert (Hev : ev = env_group_install_call (grp_specs opts)
                                (group_package_types conf) (strict conf) (Some e')).
           { eapply Hin_groups; [exact Hin|].
             pose proof (_install_packages_yields opts conf forms wE) as [Hp _].
             eapply not_in_kind; [exact Hp | reflexivity]. }
           injection Hev as -> -> -> ->. rewrite Hee. simpl.
           exists ([populate_update_security_filter_call opts (sack_query base w)]
                   ++ tB ++ tC ++ tD ++ [read_comps_call true]), wE.
           rewrite Ev, Ht, <- !app_assoc. split; reflexivity.
        -- assert (Hev : ev = env_group_install_call (grp_specs opts)
                                (group_package_types conf) (strict conf) (Some e')).
           { eapply Hin_groups; [exact Hin|].
             pose proof (_install_packages_yields opts conf forms wE) as [Hp _].
             eapply not_in_kind; [exact Hp | reflexivity]. }
           injection Hev as -> -> -> ->. rewrite Hee. simpl.
           exists ([populate_update_security_filter_call opts (sack_query base w)]
                   ++ tB ++ tC ++ tD ++ [read_comps_call true]), wE.
           rewrite Ev, Ht, <- !app_assoc. split; reflexivity.
      * (* fatal: the run ends with [e'] *)
        intros Hin. rewrite <- (app_nil_r tE) in Hin.
        apply Hin_groups in Hin; [|intros []].
        injection Hin as -> -> -> ->.
        replace (strict conf || negb (isinstance_Error base e')) with true.
        2:{ destruct (isinstance_Error base e'), (strict conf);
              simpl in *; congruence. }
        split; [reflexivity|].
        exists ([populate_update_security_filter_call opts (sack_query base w)]
                ++ tB ++ tC ++ tD ++ [read_comps_call true]).
        rewrite Ht, <- !app_assoc. reflexivity.
    + (* group installation returned *)
      step. eapply yields_weaken; [apply packages_step_yields|].
      intros tF wF v (HF & _).
      assert (HF' : ~ In ev tF) by (eapply not_in_kind; [exact HF | reflexivity]).
      assert (Hno : forall rest, rest = tF \/ rest = tF ++ [] ->
        ~ In ev ([populate_update_security_filter_call opts (sack_query base w)]
                 ++ tB ++ tC ++ tD ++ tE ++ rest)).
      { intros rest Hrest Hin. apply Hin_groups in Hin; [discriminate|].
        destruct Hrest as [-> | ->]; rewrite ?app_nil_r; exact HF'. }
      destruct v as [errs|r]; [|intros Hin; apply Hno in Hin; tauto].
      unfold finalize. destruct (_ && strict conf); step;
        intros Hin; apply Hno in Hin; tauto.
Qed.


(** ** Beyond the claims *)

(** *** [_get_nevra_forms_from_command] and [aliases] *)

Lemma existsb_keys {V : Type} (d : list (string * V)) k :
  existsb (String.eqb k) (map fst d)
  = match dict_get k d with Some _ => true | None => false end.
Proof.
  induction d as [|[k' v] d IH]; simpl; [reflexivity|].
  destruct (String.eqb k k'); [reflexivity | exact IH].
Qed.

Lemma existsb_In (l : list string) k :
  existsb (String.eqb k) l = true <-> In k l.
Proof.
  rewrite existsb_exists. split.
  - intros (x & Hx & E). apply String.eqb_eq in E. subst. exact Hx.
  - intros H. exists k. split; [exact H | apply String.eqb_refl].
Qed.

(** X1: the forms of a command are the lookups of the commands that are keys
    of [nevra_forms], one form for each such command and in command order;
    there is no form exactly when no command is such a key. *)
Theorem X1_nevra_forms_follow_the_command o :
  map Some (_get_nevra_forms_from_command o)
  = map (fun c => dict_get c nevra_forms) (nevra_form_commands o)
  /\ List.length (_get_nevra_forms_from_command o)
     = List.length (nevra_form_commands o)
  /\ (_get_nevra_forms_from_command o = []
      <-> forall c, In c (command o) -> ~ In c (map fst nevra_forms)).
Proof.
  unfold _get_nevra_forms_from_command, nevra_form_commands.
  generalize nevra_forms as d. intros d.
  induction (command o) as [|c l (IH1 & IH2 & IH3)].
  - repeat split; auto.
  - cbn [flat_map filter]. rewrite existsb_keys.
    pose proof (existsb_In (map fst d) c) as Hin. rewrite existsb_keys in Hin.
    destruct (dict_get c d) as [f|] eqn:E.
    + cbn [map app List.length]. rewrite IH1, IH2, E.
      split; [reflexivity|]. split; [reflexivity|]. split; [discriminate|].
      intros H. exfalso. apply (H c); [left; reflexivity|].
      apply Hin. reflexivity.
    + cbn [app]. split; [exact IH1|]. split; [exact IH2|]. rewrite IH3. split.
      * intros H c' [<-|Hc']; [|apply H; exact Hc'].
        intros Hc. apply Hin in Hc. discriminate.
      * intros H c' Hc'. apply H. right. exact Hc'.
Qed.

(** X2: invoked under a single alias, the command has at most one form, and
    none exactly under [install] and [localinstall]. *)
Theorem X2_an_alias_gives_at_most_one_form a o :
  In a aliases ->
  command o = [a] ->
  List.length (_get_nevra_forms_from_command o) <= 1
  /\ (_get_nevra_forms_from_command o = [] <-> a = "install" \/ a = "localinstall").
Proof.
  intros Ha Hcmd. unfold _get_nevra_forms_from_command. rewrite Hcmd.
  simpl in Ha. destruct Ha as [<-|[<-|[<-|[<-|[<-|[]]]]]]; simpl;
    (split; [lia|]); split; intros H; try discriminate; auto;
    destruct H as [H|H]; discriminate H.
Qed.


(** *** The two logging helpers *)

Lemma for_each_emit {A : Type} (l : list A) (ev : A -> event) (w : world) :
  for_each l (fun x (_ : unit) => emit (ev x)) tt w
  = {| trace := map ev l; final := w; value := Return tt |}.
Proof.
  induction l as [|x l IH]; simpl; [reflexivity|].
  unfold bind. simpl. rewrite IH. reflexivity.
Qed.

(** X3: [_log_not_valid_rpm_file_paths] writes one info line for each package
    spec, then one for each group spec with its [@] put back, in the order of
    the request; it returns and leaves the engine as it was. *)
Theorem X3_log_not_valid_rpm_file_paths_lines opts specs w :
  let o := _log_not_valid_rpm_file_paths base opts specs w in
  trace o
  = map (fun p => logger_info "Not a valid rpm file path: %s" (bold base p))
        (pkg_specs opts)
    ++ map (fun g => logger_info "Not a valid rpm file path: %s"
                       (bold base ("@" ++ g)%string)) specs
  /\ List.length (trace o) = List.length (pkg_specs opts) + List.length specs
  /\ final o = w
  /\ value o = Return tt.
Proof.
  unfold _log_not_valid_rpm_file_paths. cbv zeta. rewrite for_each_emit. simpl.
  rewrite map_app, map_map. split; [reflexivity|].
  rewrite length_app, !length_map. auto.
Qed.

(** X4: [_inform_not_a_valid_combination] writes one warning for each entry
    of its argument, in order; it returns and leaves the engine as it was. *)
Theorem X4_inform_not_a_valid_combination_lines forms w :
  let o := _inform_not_a_valid_combination base forms w in
  trace o = map (fun f => logger_warning "Not a valid form: %s" (bold base f)) forms
  /\ warned (trace o) = map (bold base) forms
  /\ final o = w
  /\ value o = Return tt.
Proof.
  unfold _inform_not_a_valid_combination. rewrite for_each_emit. simpl.
  split; [reflexivity|]. split; [|auto].
  induction forms as [|f l IH]; simpl; [reflexivity|]. rewrite IH. reflexivity.
Qed.


(** *** What every call of a run carries *)

Local Abbreviation always P m := (forall w : world, Forall P (trace (m w))).

Lemma always_ret {A : Type} (P : event -> Prop) (a : A) : always P (ret a : M A).
Proof. intros w. constructor. Qed.

Lemma always_raise {A : Type} (P : event -> Prop) r : always P (raise r : M A).
Proof. intros w. constructor. Qed.

Lemma always_emit (P : event -> Prop) (ev : event) :
  P ev -> always P (emit ev : M unit).
Proof. intros H w. repeat constructor. exact H. Qed.

Lemma always_call {A : Type} (P : event -> Prop) (f : world -> world * A) ev :
  (forall a, P (ev a)) -> always P (call f ev).
Proof. intros H w. repeat constructor. apply H. Qed.

Lemma always_bind {A B : Type} (P : event -> Prop) (m : M A) (f : A -> M B) :
  always P m -> (forall a, always P (f a)) -> always P (bind m f).
Proof.
  intros Hm Hf w. unfold bind. destruct (value (m w)); simpl.
  - apply Forall_app. split; [apply Hm | apply Hf].
  - apply Hm.
Qed.

Lemma always_for_each {A B : Type} (P : event -> Prop) (l : list A)
    (body : A -> B -> M B) :
  (forall x acc, always P (body x acc)) ->
  forall acc, always P (for_each l body acc).
Proof.
  intros Hbody. induction l as [|x l IH]; intros acc.
  - intros w. constructor.
  - cbn [for_each]. apply always_bind; auto.
Qed.

(** X5: every engine call of a run is made with the arguments of the request:
    module resolution gets the request's group specs and [assumeyes], the
    file intake its file names, group installation the configured package
    types, every per-spec install the forms of the command, and each install
    call the strictness of the configuration; [read_comps] is always asked
    for the architecture filter. *)
Theorem X5_calls_carry_the_request opts conf w :
  Forall (carries_request opts conf) (trace (run base opts conf w)).
Proof.
  revert w. unfold run, _log_not_valid_rpm_file_paths, _inform_not_a_valid_combination,
    _install_files, _install_groups, _install_packages. cbv zeta.
  repeat first
    [ apply always_ret
    | apply always_raise
    | apply always_emit
    | apply always_call; intros
    | apply always_for_each; intros ? ?
    | apply always_bind; [ | intro ]
    | match goal with
      | |- forall w, Forall _ (trace ((if ?b then _ else _) w)) => destruct b
      | |- forall w, Forall _ (trace ((match ?r with Some _ => _ | None => _ end) w)) =>
          destruct r
      end ];
    simpl; auto.
Qed.


(** *** The package phase inside a run *)

(** The loop of [_install_packages], however it ends: a hint was asked for
    each spec reported unmatched and for no other, and the specs tried so
    far are the first ones of the request. *)
Lemma _install_packages_trace opts conf forms w :
  let t := trace (_install_packages base opts conf forms w) in
  hinted_specs t = unmatched_specs marking t
  /\ exists rest, pkg_specs opts = attempted_specs t ++ rest.
Proof.
  cbv zeta.
  change (yields (_install_packages base opts conf forms) w (fun t _ _ =>
    hinted_specs t = unmatched_specs marking t
    /\ exists rest, pkg_specs opts = attempted_specs t ++ rest)).
  unfold _install_packages. cbv zeta. generalize (pkg_specs opts) as l.
  match goal with
  | |- forall l, yields (for_each _ ?body ?acc0) _ _ =>
      enough (H : forall l acc w,
        yields (for_each l body acc) w (fun t _ _ =>
          hinted_specs t = unmatched_specs marking t
          /\ exists rest, l = attempted_specs t ++ rest))
        by (intros l; apply H)
  end.
  clear w. induction l as [|x l IH]; intros acc w.
  - simpl for_each. step. split; [reflexivity|]. exists []. reflexivity.
  - simpl for_each. step. step. step.
    destruct (snd (install base x (strict conf) forms w)) as [e|] eqn:E.
    + destruct (marking e) eqn:Em.
      * step. step. step. step. step.
        eapply yields_weaken; [apply IH|]. intros t w' v (Hh & rest & ->).
        simpl. rewrite Em, Hh. split; [reflexivity|]. exists rest. reflexivity.
      * step. simpl. rewrite Em. split; [reflexivity|]. exists l. reflexivity.
    + step. eapply yields_weaken; [apply IH|]. intros t w' v (Hh & rest & ->).
      simpl. split; [exact Hh|]. exists rest. reflexivity.
Qed.

(** A run's trace is what came before the package phase, then the trace of
    [_install_packages] if the run got that far. *)
Lemma run_trace_split opts conf w :
  exists pre tF,
    trace (run base opts conf w) = pre ++ tF
    /\ Forall (fun ev => match ev with
                         | install_call _ _ _ _ | report_icase_hint_call _ => False
                         | _ => True
                         end) pre
    /\ (tF = []
        \/ exists w', tF = trace (_install_packages base opts conf
                                    (_get_nevra_forms_from_command opts) w')).
Proof.
  set (before := fun ev : event =>
         match ev with
         | install_call _ _ _ _ | report_icase_hint_call _ => False
         | _ => True
         end).
  assert (Hlog : forall t, Forall (fun ev => is_log ev = true) t -> Forall before t).
  { intros t. apply Forall_impl. intros [] H; simpl in *; try discriminate; exact I. }
  assert (Hmod : forall t, Forall (fun ev => is_install_module_call ev = true) t ->
                           Forall before t).
  { intros t. apply Forall_impl. intros [] H; simpl in *; try discriminate; exact I. }
  assert (Hfile : forall t, Forall (fun ev => is_file_phase_event ev = true) t ->
                            Forall before t).
  { intros t. apply Forall_impl. intros [] H; simpl in *; try discriminate; exact I. }
  assert (Hgrp : forall t,
            Forall (fun ev => is_log ev || is_group_install_call ev = true) t ->
            Forall before t).
  { intros t. apply Forall_impl. intros [] H; simpl in *; try discriminate; exact I. }
  change (yields (run base opts conf) w (fun t _ _ =>
    exists pre tF,
      t = pre ++ tF /\ Forall before pre
      /\ (tF = []
          \/ exists w', tF = trace (_install_packages base opts conf
                                      (_get_nevra_forms_from_command opts) w')))).
  assert (Hstop : forall pre, Forall before pre ->
    exists pre' tF,
      pre = pre' ++ tF /\ Forall before pre'
      /\ (tF = []
          \/ exists w', tF = trace (_install_packages base opts conf
                                      (_get_nevra_forms_from_command opts) w'))).
  { intros pre Hpre. exists pre, []. rewrite app_nil_r. auto. }
  rewrite run_steps. cbv zeta. step. unfold apply_security_filter. step. step.
  eapply yields_weaken; [apply check_localinstall_usage_yields|].
  intros tB wB v (HB & _ & _). apply Hlog in HB.
  destruct v as [[]|r].
  2:{ apply Hstop. apply Forall_app. split; [repeat constructor | exact HB]. }
  step. eapply yields_weaken; [apply resolve_modules_yields|].
  intros tC wC v (HC & skipped & ->). apply Hmod in HC. step.
  eapply yields_weaken; [apply files_step_yields|].
  intros tD wD v (HD & _ & _). apply Hfile in HD.
  assert (H4 : Forall before
    ([populate_update_security_filter_call opts (sack_query base w)]
     ++ tB ++ tC ++ tD)).
  { rewrite !Forall_app. repeat split; auto; repeat constructor. }
  destruct v as [err_pkgs|r]; [|apply Hstop; exact H4].
  step. eapply yields_weaken; [apply groups_step_summary|].
  intros tE wE v (HE & _). apply Hgrp in HE.
  assert (H5 : Forall before
    (([populate_update_security_filter_call opts (sack_query base w)]
      ++ tB ++ tC ++ tD) ++ tE)).
  { apply Forall_app. split; assumption. }
  rewrite <- !app_assoc in H5.
  destruct v as [[]|r]; [|apply Hstop; exact H5].
  unfold packages_step. destruct (is_localinstall opts); simpl negb; cbv iota.
  - step. step. unfold finalize. destruct (_ && strict conf); step;
      rewrite !app_nil_r; apply Hstop; exact H5.
  - unfold yields, bind, finalize.
    exists ([populate_update_security_filter_call opts (sack_query base w)]
            ++ tB ++ tC ++ tD ++ tE),
           (trace (_install_packages base opts conf
                     (_get_nevra_forms_from_command opts) wE)).
    split; [|split; [exact H5 | right; eauto]].
    destruct (value (_install_packages base opts conf
                       (_get_nevra_forms_from_command opts) wE)); simpl.
    + destruct (_ && strict conf); simpl; rewrite !app_nil_r, <- !app_assoc;
        reflexivity.
    + rewrite <- !app_assoc. reflexivity.
Qed.


Lemma before_packages_silent (pre : list event) :
  Forall (fun ev => match ev with
                    | install_call _ _ _ _ | report_icase_hint_call _ => False
                    | _ => True
                    end) pre ->
  hinted_specs pre = [] /\ unmatched_specs marking pre = []
  /\ attempted_specs pre = [].
Proof.
  induction 1 as [|ev pre Hev _ (IH1 & IH2 & IH3)]; [auto|].
  destruct ev; simpl; try contradiction; auto.
Qed.

(** X6: on every run, however it ends, the engine is asked for a
    case-insensitive hint for exactly the package specs whose install raised
    a [MarkingError], once for each failure and in the same order. *)
Theorem X6_a_hint_for_each_unmatched_spec opts conf w :
  hinted_specs (trace (run base opts conf w))
  = unmatched_specs marking (trace (run base opts conf w)).
Proof.
  destruct (run_trace_split opts conf w) as (pre & tF & -> & Hpre & HtF).
  apply before_packages_silent in Hpre. destruct Hpre as (H1 & H2 & _).
  unfold hinted_specs, unmatched_specs in *. rewrite !flat_map_app, H1, H2.
  destruct HtF as [->|[w' ->]]; [reflexivity|].
  apply (_install_packages_trace opts conf _ w').
Qed.

(** X7: on every run, however it ends, the specs handed to [base.install] are
    the first package specs of the request, in order and without a gap: no
    spec is tried before all the specs in front of it were. *)
Theorem X7_specs_are_tried_in_request_order opts conf w :
  exists rest,
    pkg_specs opts = attempted_specs (trace (run base opts conf w)) ++ rest.
Proof.
  destruct (run_trace_split opts conf w) as (pre & tF & -> & Hpre & HtF).
  apply before_packages_silent in Hpre. destruct Hpre as (_ & _ & H3).
  unfold attempted_specs in *. rewrite flat_map_app, H3.
  destruct HtF as [->|[w' ->]]; [exists (pkg_specs opts); reflexivity|].
  apply (_install_packages_trace opts conf _ w').
Qed.


(** *** When a run refuses the request *)

Lemma truthy_nonempty {A : Type} (l : list A) : truthy l = true -> l <> [].
Proof. destruct l; [discriminate | intros _; discriminate]. Qed.

Lemma is_localinstall_command opts :
  is_localinstall opts = true -> command opts = ["localinstall"].
Proof.
  unfold is_localinstall.
  destruct (list_eq_dec string_dec (command opts) ["localinstall"]);
    [auto | discriminate].
Qed.

Lemma resolve_modules_skipped opts w :
  yields (resolve_modules base opts) w
    (fun _ _ v =>
       exists skipped,
         v = Return skipped
         /\ (truthy skipped = true -> truthy (grp_specs opts) = true)).
Proof.
  unfold resolve_modules.
  destruct (truthy (grp_specs opts) && negb (is_localinstall opts)) eqn:E; step.
  - apply andb_prop in E. destruct E as [E _]. eauto.
  - eauto.
Qed.

Lemma files_step_error opts conf forms w :
  yields (files_step base opts conf forms) w
    (fun _ _ v =>
       forall msg, v = Raise (Error msg) ->
         msg = "Nothing to do." /\ strict conf = true
         /\ truthy (filenames opts) && truthy forms = true).
Proof.
  unfold files_step. destruct (truthy (filenames opts) && truthy forms).
  - step. eapply yields_weaken; [apply _inform_not_a_valid_combination_yields|].
    intros t w' v (_ & _ & ->). simpl.
    destruct (strict conf); step; intros msg E; [|discriminate].
    injection E as <-. auto.
  - eapply yields_weaken; [apply _install_files_yields|].
    intros t w' v (loop & _ & _ & Hv) msg E. rewrite E in Hv.
    destruct Hv as (e & _ & _ & E' & _). discriminate.
Qed.

Lemma groups_step_error opts conf forms skipped w :
  yields (groups_step base opts conf forms skipped) w
    (fun _ _ v =>
       forall msg, v = Raise (Error msg) ->
         msg = "Nothing to do." /\ strict conf = true
         /\ truthy skipped && truthy forms = true).
Proof.
  unfold groups_step. destruct (truthy skipped && truthy forms).
  - step. eapply yields_weaken; [apply _inform_not_a_valid_combination_yields|].
    intros t w' v (_ & _ & ->). simpl.
    destruct (strict conf); step; intros msg E; [|discriminate].
    injection E as <-. auto.
  - destruct (truthy skipped && negb (is_localinstall opts)).
    + eapply yields_weaken; [apply _install_groups_yields|].
      cbv zeta. intros t w' v (_ & _ & ->) msg E.
      destruct (snd _) as [e|]; [|discriminate].
      destruct (isinstance_Error base e && negb (strict conf)); discriminate.
    + step. intros msg E. discriminate.
Qed.

(** The error that [run] builds at its three early exits is "Nothing to
    do.", comes only under strictness and only for a request that is refused
    as a whole. *)
Lemma own_error_is_a_conflict opts conf w msg :
  value (run base opts conf w) = Raise (Error msg) ->
  msg = "Nothing to do."
  /\ strict conf = true
  /\ ((command opts = ["localinstall"]
       /\ (grp_specs opts <> [] \/ pkg_specs opts <> []))
      \/ (_get_nevra_forms_from_command opts <> []
          /\ (filenames opts <> [] \/ grp_specs opts <> []))).
Proof.
  revert msg.
  change (yields (run base opts conf) w (fun _ _ v => forall msg,
    v = Raise (Error msg) ->
    msg = "Nothing to do."
    /\ strict conf = true
    /\ ((command opts = ["localinstall"]
         /\ (grp_specs opts <> [] \/ pkg_specs opts <> []))
        \/ (_get_nevra_forms_from_command opts <> []
            /\ (filenames opts <> [] \/ grp_specs opts <> []))))).
  rewrite run_steps. cbv zeta. step. unfold apply_security_filter. step. step.
  eapply yields_weaken; [apply check_localinstall_usage_yields|].
  intros tB wB v (_ & _ & ->).
  destruct (is_localinstall opts && (truthy (grp_specs opts) || truthy (pkg_specs opts))
            && strict conf) eqn:Eusage.
  { intros msg E. injection E as <-.
    apply andb_prop in Eusage. destruct Eusage as [Eu Es].
    apply andb_prop in Eu. destruct Eu as [El Eg].
    split; [reflexivity|]. split; [exact Es|]. left.
    split; [apply is_localinstall_command; exact El|].
    apply orb_prop in Eg. destruct Eg as [Eg|Eg]; [left|right];
      apply truthy_nonempty; exact Eg. }
  clear Eusage. step.
  eapply yields_weaken; [apply resolve_modules_skipped|].
  intros tC wC v (skipped & -> & Hskipped). step.
  eapply yields_weaken; [apply files_step_error|].
  intros tD wD v Hv.
  destruct v as [err_pkgs|r].
  2:{ intros msg E. injection E as ->.
      destruct (Hv msg eq_refl) as (Hm & Hs & Hc).
      apply andb_prop in Hc. destruct Hc as [Hf Hforms].
      split; [exact Hm|]. split; [exact Hs|]. right.
      split; apply truthy_nonempty in Hf, Hforms; auto. }
  clear Hv. step.
  eapply yields_weaken; [apply groups_step_error|].
  intros tE wE v Hv.
  destruct v as [[]|r].
  2:{ intros msg E. destruct (Hv msg E) as (Hm & Hs & Hc).
      apply andb_prop in Hc. destruct Hc as [Hsk Hforms].
      apply Hskipped in Hsk.
      split; [exact Hm|]. split; [exact Hs|]. right.
      split; apply truthy_nonempty in Hsk, Hforms; auto. }
  clear Hv. step.
  eapply yields_weaken; [apply packages_step_yields|].
  intros tF wF v (_ & Hv).
  destruct v as [errs|r].
  2:{ destruct Hv as (e & spec & w0 & -> & _). intros msg E. discriminate. }
  unfold finalize. destruct (_ && strict conf); step; intros msg E; discriminate.
Qed.

(** X8: whatever a run raises is one of three things.  Its own plain error,
    which is always "Nothing to do.", comes only under strictness and only
    for a request refused as a whole: a [localinstall] that carries a group
    or package spec, or a NEVRA form together with a file name or a group
    spec.  Its own aggregate error, "Unable to find a match", comes only
    under strictness and with something unmatched.  Everything else is an
    exception of the engine that the run did not catch: one from a per-file
    or per-spec install that is no [MarkingError], or one from group
    installation, which the run lets through when strictness is on (then
    it may be a [dnf.exceptions.Error] of any kind) or when it is no
    [dnf.exceptions.Error]. *)
Theorem X8_what_a_run_raises opts conf w r :
  value (run base opts conf w) = Raise r ->
  let t := trace (run base opts conf w) in
  match r with
  | Error msg =>
      msg = "Nothing to do."
      /\ strict conf = true
      /\ ((command opts = ["localinstall"]
           /\ (grp_specs opts <> [] \/ pkg_specs opts <> []))
          \/ (_get_nevra_forms_from_command opts <> []
              /\ (filenames opts <> [] \/ grp_specs opts <> [])))
  | PackagesNotAvailableError msg _ _ =>
      msg = "Unable to find a match"
      /\ strict conf = true
      /\ (unmatched_specs marking t <> [] \/ unmatched_pkgs marking t <> [])
  | Propagated e =>
      (marking e = false
       /\ ((exists p w0, snd (package_install base p (strict conf) w0) = Some e)
           \/ (exists spec w0,
                 snd (install base spec (strict conf)
                        (_get_nevra_forms_from_command opts) w0) = Some e)))
      \/ ((strict conf = true \/ isinstance_Error base e = false)
          /\ exists specs w0,
               snd (env_group_install base specs (group_package_types conf)
                      (strict conf) w0) = Some e)
  end.
Proof.
  intros Hv t. destruct r as [msg|msg s ps|e].
  - apply (own_error_is_a_conflict opts conf w msg Hv).
  - pose proof (run_yields opts conf w) as H. unfold yields in H. fold t in H.
    rewrite Hv in H. cbv beta iota in H. destruct H as (Hfin & _).
    destruct (negb (Nat.eqb (List.length (unmatched_specs marking t)) 0)
              || negb (Nat.eqb (List.length (unmatched_pkgs marking t)) 0)) eqn:Eu;
      [|discriminate].
    destruct (strict conf); [|discriminate]. simpl in Hfin.
    injection Hfin as -> _ _. split; [reflexivity|]. split; [reflexivity|].
    rewrite !length_eqb_0 in Eu. apply orb_prop in Eu.
    destruct Eu as [Eu|Eu]; [left|right]; apply truthy_nonempty; exact Eu.
  - pose proof (run_yields opts conf w) as H. unfold yields in H.
    rewrite Hv in H. cbv beta iota in H.
    destruct H as [H|(Hs & w0 & Hg)]; [left; exact H|]. right. eauto.
Qed.


(** *** Module resolution and group installation inside a run *)

Lemma filter_logs (p : event -> bool) (t : list event) :
  (forall msg arg, p (logger_info msg arg) = false) ->
  (forall msg arg, p (logger_warning msg arg) = false) ->
  Forall (fun ev => is_log ev = true) t -> filter p t = [].
Proof.
  intros Hi Hw Ht. apply filter_none. eapply Forall_impl; [|exact Ht].
  intros [] H; simpl in H; try discriminate; rewrite ?Hi, ?Hw; reflexivity.
Qed.

(** X9: a run calls module resolution exactly when the request has a group
    spec and the command is not [localinstall]; it calls it once, with all
    the group specs and [assumeyes], on the engine as the security filter
    left it. *)
Theorem X9_module_resolution_once opts conf w :
  filter is_install_module_call (trace (run base opts conf w))
  = if truthy (grp_specs opts) && negb (is_localinstall opts)
    then [install_module_call (grp_specs opts) (assumeyes opts)
            (snd (install_module base (grp_specs opts) (assumeyes opts)
                    (_populate_update_security_filter base opts (sack_query base w) w)))]
    else [].
Proof.
  change (yields (run base opts conf) w (fun t _ _ =>
    filter is_install_module_call t
    = if truthy (grp_specs opts) && negb (is_localinstall opts)
      then [install_module_call (grp_specs opts) (assumeyes opts)
              (snd (install_module base (grp_specs opts) (assumeyes opts)
                      (_populate_update_security_filter base opts
                         (sack_query base w) w)))]
      else [])).
  rewrite run_steps. cbv zeta. step. unfold apply_security_filter. step. step.
  eapply yields_weaken; [apply check_localinstall_usage_yields|].
  intros tB wB v (HB & -> & ->).
  assert (HB' : filter is_install_module_call tB = [])
    by (apply filter_logs; [reflexivity | reflexivity | exact HB]).
  destruct (is_localinstall opts && (truthy (grp_specs opts) || truthy (pkg_specs opts))
            && strict conf) eqn:Eusage.
  { apply andb_prop in Eusage. destruct Eusage as [Eu _].
    apply andb_prop in Eu. destruct Eu as [-> _].
    rewrite andb_false_r, filter_app, HB'. reflexivity. }
  clear Eusage. step.
  assert (Hrest : forall skipped pre,
    filter is_install_module_call pre
    = (if truthy (grp_specs opts) && negb (is_localinstall opts)
       then [install_module_call (grp_specs opts) (assumeyes opts)
               (snd (install_module base (grp_specs opts) (assumeyes opts)
                       (_populate_update_security_filter base opts
                          (sack_query base w) w)))]
       else []) ->
    forall w',
    yields (bind (files_step base opts conf (_get_nevra_forms_from_command opts))
              (fun err_pkgs =>
                 bind (groups_step base opts conf
                         (_get_nevra_forms_from_command opts) skipped)
                   (fun _ =>
                      bind (packages_step base opts conf
                              (_get_nevra_forms_from_command opts))
                        (fun errs => finalize conf errs err_pkgs)))) w'
      (fun t2 _ _ =>
         filter is_install_module_call (pre ++ t2)
         = (if truthy (grp_specs opts) && negb (is_localinstall opts)
            then [install_module_call (grp_specs opts) (assumeyes opts)
                    (snd (install_module base (grp_specs opts) (assumeyes opts)
                            (_populate_update_security_filter base opts
                               (sack_query base w) w)))]
            else []))).
  { intros skipped pre Hpre w'. eapply yields_weaken.
    - apply (emits_only_yields (fun ev => negb (is_install_module_call ev))).
      unfold files_step, groups_step, packages_step, finalize,
        _inform_not_a_valid_combination, _install_files, _install_groups,
        _install_packages. emits.
    - intros t w'' v' Ht. simpl in Ht.
      rewrite filter_app, Hpre, (filter_none _ _ Ht), app_nil_r. reflexivity. }
  unfold resolve_modules.
  destruct (truthy (grp_specs opts) && negb (is_localinstall opts)); step.
  - eapply yields_weaken.
    + apply (Hrest _ ([populate_update_security_filter_call opts (sack_query base w)]
                      ++ tB ++ [install_module_call (grp_specs opts) (assumeyes opts)
                         (snd (install_module base (grp_specs opts) (assumeyes opts)
                            (_populate_update_security_filter base opts
                               (sack_query base w) w)))])).
      rewrite !filter_app, HB'. reflexivity.
    + intros t w' v' H. simpl in H |- *. rewrite <- ?app_assoc in H.
      simpl in H. exact H.
  - eapply yields_weaken.
    + apply (Hrest _ ([populate_update_security_filter_call opts (sack_query base w)]
                      ++ tB)).
      rewrite !filter_app, HB'. reflexivity.
    + intros t w' v' H. simpl in H |- *. rewrite <- ?app_assoc in H.
      simpl in H. exact H.
Qed.


Lemma resolve_modules_result opts w :
  yields (resolve_modules base opts) w
    (fun t _ v =>
       Forall (fun ev => is_install_module_call ev = true) t
       /\ exists skipped,
            v = Return skipped
            /\ (truthy skipped = true ->
                truthy (grp_specs opts) = true
                /\ (is_localinstall opts = false ->
                    skipped = snd (install_module base (grp_specs opts)
                                     (assumeyes opts) w)))).
Proof.
  unfold resolve_modules.
  destruct (truthy (grp_specs opts) && negb (is_localinstall opts)) eqn:E; step.
  - apply andb_prop in E. destruct E as [E _].
    split; [repeat constructor|]. eauto.
  - split; [constructor|]. eexists. split; [reflexivity|]. intros Hs.
    split; [exact Hs|]. intros Hl. rewrite Hs, Hl in E. discriminate.
Qed.

Lemma groups_step_calls opts conf forms skipped w :
  yields (groups_step base opts conf forms skipped) w
    (fun t _ _ =>
       filter is_group_install_call t = []
       \/ ((exists specs r,
              filter is_group_install_call t
              = [read_comps_call true;
                 env_group_install_call specs (group_package_types conf)
                   (strict conf) r])
           /\ truthy skipped = true /\ truthy forms = false
           /\ is_localinstall opts = false)).
Proof.
  unfold groups_step. destruct (truthy skipped && truthy forms) eqn:Ec.
  - step. eapply yields_weaken; [apply _inform_not_a_valid_combination_yields|].
    intros t w' v (Ht & _ & ->). simpl.
    destruct (strict conf); step; rewrite app_nil_r; left;
      (apply filter_logs; [reflexivity | reflexivity | exact Ht]).
  - destruct (truthy skipped) eqn:Es; simpl in *.
    + destruct (is_localinstall opts) eqn:El; simpl.
      * step. left. reflexivity.
      * eapply yields_weaken; [apply _install_groups_yields|].
        cbv zeta. intros t w' v (-> & _ & _). right. simpl. eauto 6.
    + step. left. reflexivity.
Qed.

(** X10: a run calls group installation at most once, as [read_comps] with the
    architecture filter and then [env_group_install] with the configured
    package types and strictness; and it calls it only for a
    request with a group spec and no NEVRA form, under a command other than
    [localinstall], after module resolution left a group spec over. *)
Theorem X10_group_installation_at_most_once opts conf w :
  let t := trace (run base opts conf w) in
  filter is_group_install_call t = []
  \/ ((exists specs r,
         filter is_group_install_call t
         = [read_comps_call true;
            env_group_install_call specs (group_package_types conf) (strict conf) r])
      /\ grp_specs opts <> []
      /\ _get_nevra_forms_from_command opts = []
      /\ command opts <> ["localinstall"]
      /\ snd (install_module base (grp_specs opts) (assumeyes opts)
                (_populate_update_security_filter base opts (sack_query base w) w))
         <> []).
Proof.
  cbv zeta.
  set (w1 := _populate_update_security_filter base opts (sack_query base w) w).
  set (G := fun t : list event =>
    filter is_group_install_call t = []
    \/ ((exists specs r,
           filter is_group_install_call t
           = [read_comps_call true;
              env_group_install_call specs (group_package_types conf) (strict conf) r])
        /\ grp_specs opts <> []
        /\ _get_nevra_forms_from_command opts = []
        /\ command opts <> ["localinstall"]
        /\ snd (install_module base (grp_specs opts) (assumeyes opts) w1) <> [])).
  change (yields (run base opts conf) w (fun t _ _ => G t)).
  assert (Hquiet : forall pre t, filter is_group_install_call pre = [] ->
                                 G t -> G (pre ++ t)).
  { intros pre t Hpre Ht. unfold G in *. rewrite filter_app, Hpre. exact Ht. }
  assert (Hquiet_r : forall t rest, filter is_group_install_call rest = [] ->
                                    G t -> G (t ++ rest)).
  { intros t rest Hrest Ht. unfold G in *. rewrite filter_app, Hrest, app_nil_r.
    exact Ht. }
  assert (Hnil : G []) by (left; reflexivity).
  rewrite run_steps. cbv zeta. step. unfold apply_security_filter. step.
  fold w1. step.
  eapply yields_weaken; [apply check_localinstall_usage_yields|].
  intros tB wB v (HB & -> & _).
  assert (HB' : filter is_group_install_call tB = [])
    by (apply filter_logs; [reflexivity | reflexivity | exact HB]).
  destruct v as [[]|r].
  2:{ apply (Hquiet [_]); [reflexivity|]. rewrite <- (app_nil_r tB).
      apply Hquiet; [exact HB' | exact Hnil]. }
  step. eapply yields_weaken; [apply resolve_modules_result|].
  intros tC wC v (HC & skipped & -> & Hskipped).
  assert (HC' : filter is_group_install_call tC = []).
  { apply filter_none. eapply Forall_impl; [|exact HC].
    intros [] H; simpl in *; congruence. }
  step. eapply yields_weaken; [apply files_step_yields|].
  intros tD wD v (HD & _ & _).
  assert (HD' : filter is_group_install_call tD = []).
  { apply filter_none. eapply Forall_impl; [|exact HD].
    intros [] H; simpl in *; congruence. }
  assert (Hpre : forall t, G t ->
    G ([populate_update_security_filter_call opts (sack_query base w)]
       ++ tB ++ tC ++ tD ++ t)).
  { intros t Ht. apply (Hquiet [_]); [reflexivity|].
    apply Hquiet; [exact HB'|]. apply Hquiet; [exact HC'|].
    apply Hquiet; [exact HD' | exact Ht]. }
  destruct v as [err_pkgs|r].
  2:{ rewrite <- (app_nil_r tD). apply Hpre. exact Hnil. }
  step. eapply yields_weaken; [apply groups_step_calls|].
  intros tE wE v HE.
  assert (HE' : G tE).
  { destruct HE as [HE|(HE & Hs & Hf & Hl)]; [left; exact HE|]. right.
    destruct (Hskipped Hs) as [Hg Hsk].
    split; [exact HE|]. split; [apply truthy_nonempty; exact Hg|].
    split; [destruct (_get_nevra_forms_from_command opts); [reflexivity|discriminate]|].
    split.
    - intros Hc. apply localinstall_command in Hc. congruence.
    - rewrite <- (Hsk Hl). apply truthy_nonempty. exact Hs. }
  destruct v as [[]|r].
  2:{ apply Hpre. exact HE'. }
  eapply yields_weaken.
  - apply (emits_only_yields (fun ev => negb (is_group_install_call ev))).
    unfold packages_step, finalize, _install_packages. emits.
  - intros t w' v' Ht. simpl in Ht. apply Hpre. apply Hquiet_r; [|exact HE'].
    apply filter_none. exact Ht.
Qed.


(** *** The conflict of file names and a NEVRA form without strictness *)

Lemma no_package_install_no_unmatched_pkgs (t : list event) :
  filter is_package_install_call t = [] -> unmatched_pkgs marking t = [].
Proof.
  induction t as [|ev t IH]; [reflexivity|].
  destruct ev; simpl; try exact IH. discriminate.
Qed.

(** X11: with strictness off, a request that pairs file names with a NEVRA
    form gets one warning for each file name and no file installation at
    all: neither the file intake nor a per-file install is called and no
    package is reported unmatched.  The run does not raise "Nothing to do.",
    and when it returns every package spec was handed to [base.install]. *)
Theorem X11_non_strict_conflict_skips_the_files opts conf w :
  strict conf = false ->
  filenames opts <> [] ->
  _get_nevra_forms_from_command opts <> [] ->
  let t := trace (run base opts conf w) in
  let v := value (run base opts conf w) in
  filter is_add_remote_rpms_call t = []
  /\ filter is_package_install_call t = []
  /\ unmatched_pkgs marking t = []
  /\ (exists more, warned t = map (bold base) (filenames opts) ++ more)
  /\ (forall msg, v <> Raise (Error msg))
  /\ (v = Return tt -> attempted_specs t = pkg_specs opts).
Proof.
  intros Hs Hfiles Hforms t v.
  pose proof (forms_not_localinstall _ Hforms) as Hloc.
  assert (Hv : (forall msg, v <> Raise (Error msg))
               /\ (v = Return tt -> attempted_specs t = pkg_specs opts)).
  { pose proof (run_yields opts conf w) as H. unfold yields in H. fold t v in H.
    split.
    - intros msg E. rewrite E in H. cbv beta iota in H.
      destruct H as [_ H]. congruence.
    - intros E. rewrite E in H. cbv beta iota in H.
      destruct H as (_ & _ & H). rewrite Hloc in H.
      apply H. }
  enough (H : filter is_add_remote_rpms_call t = []
              /\ filter is_package_install_call t = []
              /\ exists more, warned t = map (bold base) (filenames opts) ++ more).
  { destruct H as (H1 & H2 & H3). destruct Hv as [Hv1 Hv2].
    repeat split; auto. apply no_package_install_no_unmatched_pkgs. exact H2. }
  clear Hv. subst t v.
  change (yields (run base opts conf) w (fun t _ _ =>
    filter is_add_remote_rpms_call t = []
    /\ filter is_package_install_call t = []
    /\ exists more, warned t = map (bold base) (filenames opts) ++ more)).
  apply truthy_true in Hfiles. apply truthy_true in Hforms.
  rewrite run_steps. cbv zeta. step. unfold apply_security_filter. step. step.
  unfold check_localinstall_usage. rewrite Hloc. cbn [andb]. step. step.
  eapply yields_weaken; [apply resolve_modules_result|].
  intros tC wC v (HC & skipped & -> & _).
  assert (HC' : filter is_add_remote_rpms_call tC = []
                /\ filter is_package_install_call tC = [] /\ warned tC = []).
  { clear -HC. induction HC as [|ev t Hev _ (IH1 & IH2 & IH3)]; [auto|].
    destruct ev; simpl in *; try discriminate; auto. }
  destruct HC' as (HC1 & HC2 & HC3).
  step. unfold files_step. rewrite Hfiles, Hforms, Hs. cbn [andb]. step.
  unfold _inform_not_a_valid_combination at 1. unfold yields at 1.
  rewrite for_each_emit. cbn [trace final value]. step.
  eapply yields_weaken.
  - apply (emits_only_yields
             (fun ev => negb (is_add_remote_rpms_call ev || is_package_install_call ev))).
    unfold groups_step, packages_step, finalize, _inform_not_a_valid_combination,
      _install_groups, _install_packages. emits.
  - intros t w' v' Ht. simpl in Ht.
    assert (Ht' : filter is_add_remote_rpms_call t = []
                  /\ filter is_package_install_call t = []).
    { clear -Ht. induction Ht as [|ev t Hev _ (IH1 & IH2)]; [auto|].
      destruct ev; simpl in *; try discriminate; auto. }
    destruct Ht' as [Ht1 Ht2].
    set (warn := fun f => logger_warning (gettext "Not a valid form: %s") (bold base f)).
    assert (Hw : forall l, filter is_add_remote_rpms_call (map warn l) = []
                           /\ filter is_package_install_call (map warn l) = []
                           /\ warned (map warn l) = map (bold base) l).
    { induction l as [|f l (IH1 & IH2 & IH3)]; [auto|]. simpl.
      rewrite IH3. auto. }
    destruct (Hw (filenames opts)) as (Hw1 & Hw2 & Hw3).
    unfold warned in *. simpl. rewrite !filter_app, !flat_map_app.
    rewrite HC1, HC2, HC3, Hw1, Hw2, Hw3, Ht1, Ht2. simpl.
    split; [reflexivity|]. split; [reflexivity|].
    rewrite ?app_nil_r. eexists. reflexivity.
Qed.


(** *** A run that returns under strictness *)






(** *** Group specs with a NEVRA form under strictness *)

(** X13: under strictness, a request with a NEVRA form whose group specs the
    module layer did not all satisfy never succeeds and never reaches group
    or per-spec package installation: the run ends with "Nothing to do.",
    unless a per-file install let an exception through before. *)
Theorem X13_groups_with_form_conflict opts conf w :
  strict conf = true ->
  _get_nevra_forms_from_command opts <> [] ->
  grp_specs opts <> [] ->
  snd (install_module base (grp_specs opts) (assumeyes opts)
         (_populate_update_security_filter base opts (sack_query base w) w)) <> [] ->
  let t := trace (run base opts conf w) in
  let v := value (run base opts conf w) in
  (v = Raise (Error "Nothing to do.")
   \/ exists e, v = Raise (Propagated e) /\ marking e = false)
  /\ filter is_group_install_call t = []
  /\ attempted_specs t = [].
Proof.
  intros Hs Hforms Hgrp Hskip. cbv zeta.
  pose proof (forms_not_localinstall _ Hforms) as Hloc.
  apply truthy_true in Hforms. apply truthy_true in Hgrp. apply truthy_true in Hskip.
  change (yields (run base opts conf) w (fun t _ v =>
    (v = Raise (Error "Nothing to do.")
     \/ exists e, v = Raise (Propagated e) /\ marking e = false)
    /\ filter is_group_install_call t = []
    /\ attempted_specs t = [])).
  rewrite run_steps. cbv zeta. step. unfold apply_security_filter. step. step.
  unfold check_localinstall_usage. rewrite Hloc. cbn [andb]. step. step.
  unfold resolve_modules. rewrite Hgrp, Hloc. cbn [andb negb]. step. step.
  eapply yields_weaken; [apply files_step_yields|].
  intros tD wD v (HD & _ & Hv).
  assert (HD' : filter is_group_install_call tD = [] /\ attempted_specs tD = []).
  { clear -HD. induction HD as [|ev t Hev _ (IH1 & IH2)]; [auto|].
    destruct ev; simpl in *; try discriminate; auto. }
  destruct HD' as [HD1 HD2].
  destruct v as [err_pkgs|[msg|? ? ?|e]]; [| | contradiction |].
  - step. unfold groups_step. rewrite Hskip, Hforms, Hs. cbn [andb]. step.
    eapply yields_weaken; [apply _inform_not_a_valid_combination_yields|].
    intros tE wE v (HE & _ & ->). step.
    split; [left; reflexivity|].
    assert (HE' : filter is_group_install_call tE = [] /\ attempted_specs tE = []).
    { clear -HE. induction HE as [|ev t Hev _ (IH1 & IH2)]; [auto|].
      destruct ev; simpl in *; try discriminate; auto. }
    destruct HE' as [HE1 HE2].
    unfold attempted_specs in *. simpl.
    rewrite !filter_app, !flat_map_app, HD1, HD2, HE1, HE2. auto.
  - destruct Hv as [-> _]. split; [left; reflexivity|].
    unfold attempted_specs in *. simpl. rewrite HD1, HD2. auto.
  - destruct Hv as [Hm _]. split; [right; eauto|].
    unfold attempted_specs in *. simpl. rewrite HD1, HD2. auto.
Qed.


(** *** The file phase inside a run *)

Lemma files_step_order opts conf forms w :
  yields (files_step base opts conf forms) w
    (fun t _ v =>
       exists rest,
         intake_pkgs t = file_installs t ++ rest
         /\ match v with
            | Return _ => rest = []
            | Raise (PackagesNotAvailableError _ _ _) => False
            | Raise _ => True
            end).
Proof.
  unfold files_step. destruct (truthy (filenames opts) && truthy forms).
  - step. eapply yields_weaken; [apply _inform_not_a_valid_combination_yields|].
    intros t w' v (Ht & _ & ->). simpl.
    assert (Hq : intake_pkgs t = [] /\ file_installs t = []).
    { clear -Ht. induction Ht as [|ev t Hev _ (IH1 & IH2)]; [auto|].
      destruct ev; simpl in *; try discriminate; auto. }
    destruct Hq as [Hq1 Hq2].
    destruct (strict conf); step; rewrite app_nil_r, Hq1, Hq2; exists []; auto.
  - unfold _install_files. cbv zeta. step. step.
    match goal with
    | |- yields (for_each ?pkgs ?body ?acc0) _ _ =>
        enough (H : forall l acc w,
          yields (for_each l body acc) w (fun t _ v =>
            intake_pkgs t = []
            /\ exists rest,
                 l = file_installs t ++ rest
                 /\ match v with
                    | Return _ => rest = []
                    | Raise (PackagesNotAvailableError _ _ _) => False
                    | Raise _ => True
                    end))
    end.
    { eapply yields_weaken; [apply H|]. intros t w' v (Hi & rest & Hl & Hv).
      exists rest. simpl. rewrite Hi, app_nil_r. auto. }
    clear w. induction l as [|x l IH]; intros acc w.
    + simpl for_each. step. split; [reflexivity|]. exists []. auto.
    + simpl for_each. step. step. step.
      destruct (snd (package_install base x (strict conf) w)) as [e|] eqn:E.
      * destruct (marking e) eqn:Em.
        -- step. step. step.
           eapply yields_weaken; [apply IH|]. intros t w' v (Hi & rest & -> & Hv).
           simpl. split; [exact Hi|]. exists rest. auto.
        -- step. simpl. split; [reflexivity|]. exists l. auto.
      * step. eapply yields_weaken; [apply IH|].
        intros t w' v (Hi & rest & -> & Hv).
        simpl. split; [exact Hi|]. exists rest. auto.
Qed.

(** X14: on every run the packages handed to [base.package_install] are the
    first packages the file intake returned, in the intake's order and
    without a gap; a run that reaches its last statement has handed over all
    of them. *)
Theorem X14_files_are_installed_in_intake_order opts conf w :
  let t := trace (run base opts conf w) in
  exists rest,
    intake_pkgs t = file_installs t ++ rest
    /\ (reaches_last_statement (value (run base opts conf w)) -> rest = []).
Proof.
  cbv zeta.
  change (yields (run base opts conf) w (fun t _ v =>
    exists rest,
      intake_pkgs t = file_installs t ++ rest
      /\ (reaches_last_statement v -> rest = []))).
  rewrite run_steps. cbv zeta. step. unfold apply_security_filter. step. step.
  eapply yields_weaken; [apply check_localinstall_usage_yields|].
  intros tB wB v (HB & _ & Hv).
  assert (HB' : intake_pkgs tB = [] /\ file_installs tB = []).
  { clear -HB. induction HB as [|ev t Hev _ (IH1 & IH2)]; [auto|].
    destruct ev; simpl in *; try discriminate; auto. }
  destruct HB' as [HB1 HB2].
  destruct v as [[]|r].
  2:{ exists []. unfold intake_pkgs, file_installs in *. simpl.
      rewrite HB1, HB2. split; [reflexivity|].
      destruct (_ && strict conf) in Hv; [|discriminate]. injection Hv as ->.
      intros []. }
  step. eapply yields_weaken; [apply resolve_modules_yields|].
  intros tC wC v' (HC & skipped & ->).
  assert (HC' : intake_pkgs tC = [] /\ file_installs tC = []).
  { clear -HC. induction HC as [|ev t Hev _ (IH1 & IH2)]; [auto|].
    destruct ev; simpl in *; try discriminate; auto. }
  destruct HC' as [HC1 HC2].
  step. eapply yields_weaken; [apply files_step_order|].
  intros tD wD v (rest & HD & Hrest).
  destruct v as [err_pkgs|r].
  - subst rest. rewrite app_nil_r in HD. eapply yields_weaken.
    + apply (emits_only_yields
               (fun ev => negb (is_add_remote_rpms_call ev || is_package_install_call ev))).
      unfold groups_step, packages_step, finalize, _inform_not_a_valid_combination,
        _install_groups, _install_packages. emits.
    + intros t w' v Ht. simpl in Ht.
      assert (Ht' : intake_pkgs t = [] /\ file_installs t = []).
      { clear -Ht. induction Ht as [|ev t Hev _ (IH1 & IH2)]; [auto|].
        destruct ev; simpl in *; try discriminate; auto. }
      destruct Ht' as [Ht1 Ht2]. exists [].
      unfold intake_pkgs, file_installs in *. simpl.
      rewrite !flat_map_app, HB1, HB2, HC1, HC2, HD, Ht1, Ht2, !app_nil_r. auto.
  - exists rest. unfold intake_pkgs, file_installs in *. simpl.
    rewrite !flat_map_app, HB1, HB2, HC1, HC2, HD. split; [reflexivity|].
    destruct r; simpl; tauto.
Qed.


(** *** [configure] *)

(** X15: [configure] leaves the four demands set and the others as it found
    them, whatever the checks do.  It always runs the GPG key check first;
    it runs the check for enabled repositories exactly when the request has
    no file name and the GPG key check returned, so a request with a file
    name is never refused for want of an enabled repository.  It raises
    exactly what the first failing check it ran raised. *)
Theorem X15_configure_checks {O cli_error : Type}
    (gpg repo : option cli_error) (d : Demands O) o :
  let r := configure gpg repo d o in
  let d' := fst (fst r) in
  let calls := snd (fst r) in
  (sack_activation d' = true /\ available_repos d' = true
   /\ resolving d' = true /\ root_user d' = true
   /\ other_demands d' = other_demands d)
  /\ (exists more, calls = checkGPGKey_call :: more)
  /\ (In checkEnabledRepo_call calls <-> filenames o = [] /\ gpg = None)
  /\ snd r = match gpg with
             | Some e => Some e
             | None => if truthy (filenames o) then None else repo
             end
  /\ fst (fst (configure gpg repo d' o)) = d'.
Proof.
  unfold configure. destruct gpg as [e|]; [|destruct (filenames o) as [|f fs]];
    simpl; (split; [auto|]); (split; [eauto|]); (split; [|auto]).
  - split; [intros [H|[]]; discriminate | intros [_ H]; discriminate].
  - split; [auto | intros _; right; left; reflexivity].
  - split; [intros [H|[]]; discriminate | intros [H _]; discriminate].
Qed.

End Properties.

(** ** The claims on the small engine *)

Section Examples.

Import Toy.

Local Abbreviation types := ["mandatory"; "default"].

(** C1: [run] hands [_install_groups] the group specs that module
    resolution skipped, but [_install_groups] does not read its parameter.
    Of the two group specs below the module layer satisfies ["mod"] and
    skips ["g"]; group installation is then called with both. *)
Theorem C1_install_groups_ignores_skipped_specs :
  let o := run toy (request "install" ["mod"; "g"] [] []) (config true) [] in
  value o = Return tt
  /\ filter is_install_module_call (trace o)
     = [install_module_call ["mod"; "g"] true ["g"]]
  /\ filter is_group_install_call (trace o)
     = [read_comps_call true; env_group_install_call ["mod"; "g"] types true None]
  /\ final o = ["mod"; "g"].
Proof. repeat split. Qed.

Lemma C2_witness :
  let opts := request "install-n" [] ["vim"] ["a.rpm"] in
  (filenames opts <> [] /\ _get_nevra_forms_from_command opts <> []
   /\ strict (config true) = true)
  /\ value (run toy opts (config true) []) = Raise (Error "Nothing to do.")
  /\ Forall (fun ev => is_add_remote_rpms_call ev = false
                       /\ is_package_install_call ev = false
                       /\ is_install_call ev = false
                       /\ is_group_install_call ev = false)
            (trace (run toy opts (config true) [])).
Proof.
  intros opts.
  assert (H1 : filenames opts <> []) by discriminate.
  assert (H2 : _get_nevra_forms_from_command opts <> []) by discriminate.
  assert (H3 : strict (config true) = true) by reflexivity.
  split; [auto|].
  exact (C2_files_with_form_conflict toy opts (config true) [] H1 H2 H3).
Defined.

(** C3 as stated fails: a request that names the unmatched spec ["nope"]
    twice gets it twice in the payload. *)
Lemma C3_counterexample :
  let o := run toy (request "install" [] ["nope"; "nope"] []) (config true) [] in
  value o = Raise (PackagesNotAvailableError "Unable to find a match" "nope nope" [])
  /\ unmatched_specs (isinstance_MarkingError toy) (trace o) = ["nope"; "nope"]
  /\ ~ NoDup (unmatched_specs (isinstance_MarkingError toy) (trace o)).
Proof.
  split; [reflexivity|]. split; [reflexivity|].
  intros H. inversion H as [|x l Hx _]. apply Hx. left. reflexivity.
Qed.

Lemma C3_witness :
  let opts := request "install" [] ["vim"; "nope"] ["a.rpm"; "bad.rpm"] in
  let o := run toy opts (config true) [] in
  let errs := unmatched_specs (isinstance_MarkingError toy) (trace o) in
  let err_pkgs := unmatched_pkgs (isinstance_MarkingError toy) (trace o) in
  reaches_last_statement (value o)
  /\ ((exists msg s ps, value o = Raise (PackagesNotAvailableError msg s ps))
      <-> strict (config true) = true /\ (errs <> [] \/ err_pkgs <> []))
  /\ (forall msg s ps,
        value o = Raise (PackagesNotAvailableError msg s ps) ->
        msg = "Unable to find a match" /\ s = String.concat " " errs /\ ps = err_pkgs)
  /\ subseq errs (pkg_specs opts)
  /\ subseq err_pkgs (intake_pkgs (trace o))
  /\ (NoDup (pkg_specs opts) -> NoDup errs)
  /\ (NoDup (intake_pkgs (trace o)) -> NoDup err_pkgs).
Proof.
  intros opts o errs err_pkgs.
  assert (H : reaches_last_statement (value o)) by exact I.
  split; [exact H|].
  exact (C3_aggregate_error_payload toy opts (config true) [] H).
Defined.

(** C4 as stated fails: with strictness off, the error that group
    installation raises for the group ["broken"], which is no "not found",
    does not end the run: the package ["vim"] is installed next and the run
    returns. *)
Lemma C4_counterexample :
  let o := run toy (request "install" ["broken"] ["vim"] []) (config false) [] in
  filter is_group_install_call (trace o)
  = [read_comps_call true;
     env_group_install_call ["broken"] types false (Some CompsFault)]
  /\ isinstance_MarkingError toy CompsFault = false
  /\ attempted_specs (trace o) = ["vim"]
  /\ value o = Return tt
  /\ value o <> Raise (Propagated CompsFault).
Proof. repeat split. discriminate. Qed.

Lemma C4_witness :
  let opts := request "install" ["broken"] ["vim"; "nope"] [] in
  let ev := env_group_install_call ["broken"] types false (Some CompsFault) in
  let forms := _get_nevra_forms_from_command opts in
  In ev (trace (run toy opts (config false) []))
  /\ exists pre w',
       trace (run toy opts (config false) [])
       = pre ++ ev :: trace (_install_packages toy opts (config false) forms w')
       /\ value (run toy opts (config false) [])
          = match value (_install_packages toy opts (config false) forms w') with
            | Return _ => Return tt
            | Raise r => Raise r
            end.
Proof.
  intros opts ev forms.
  assert (H : In ev (trace (run toy opts (config false) []))).
  { simpl. right. right. right. right. left. reflexivity. }
  split; [exact H|].
  exact (C4_group_error_fatal_iff_strict_or_foreign
           toy opts (config false) [] ["broken"] types false CompsFault H).
Defined.



Lemma C6_witness :
  let opts := request "localinstall" ["g"] [] ["a.rpm"] in
  (command opts = ["localinstall"] /\ grp_specs opts <> []
   /\ strict (config true) = true)
  /\ value (run toy opts (config true) []) = Raise (Error "Nothing to do.")
  /\ exists logs,
       trace (run toy opts (config true) []) =
         populate_update_security_filter_call opts (sack_query toy []) :: logs
       /\ Forall (fun ev => is_log ev = true) logs
       /\ Forall (fun ev => is_add_remote_rpms_call ev = false
                            /\ is_package_install_call ev = false) logs.
Proof.
  intros opts.
  assert (H1 : command opts = ["localinstall"]) by reflexivity.
  assert (H2 : grp_specs opts <> []) by discriminate.
  assert (H3 : strict (config true) = true) by reflexivity.
  split; [auto|].
  exact (C6_localinstall_with_group_fails_before_files
           toy opts (config true) [] H1 H2 H3).
Defined.

Lemma C8_witness :
  let opts := request "localinstall" ["g"] ["vim"] ["a.rpm"; "bad.rpm"] in
  command opts = ["localinstall"]
  /\ Forall (fun ev => is_file_phase_event ev = true
                       /\ is_install_module_call ev = false
                       /\ is_group_install_call ev = false
                       /\ is_install_call ev = false)
            (trace (run toy opts (config false) [])).
Proof.
  intros opts.
  assert (H : command opts = ["localinstall"]) by reflexivity.
  split; [exact H|].
  exact (C8_localinstall_installs_files_only toy opts (config false) [] H).
Defined.

Lemma C9_witness :
  let opts := request "install" [] ["nope"; "vim"; "nope"] [] in
  let o := run toy opts (config true) [] in
  value o = Raise (PackagesNotAvailableError "Unable to find a match" "nope nope" [])
  /\ "nope nope"
     = String.concat " " (unmatched_specs (isinstance_MarkingError toy) (trace o))
  /\ subseq (unmatched_specs (isinstance_MarkingError toy) (trace o)) (pkg_specs opts)
  /\ (forall a b : string,
        [a ++ " " ++ b]%string <> [a; b]
        /\ String.concat " " [a ++ " " ++ b]%string = String.concat " " [a; b]).
Proof.
  intros opts o.
  assert (H : value o = Raise (PackagesNotAvailableError "Unable to find a match"
                                 "nope nope" [])) by reflexivity.
  split; [exact H|].
  exact (C9_pkg_spec_joins_unmatched_specs toy opts (config true) [] _ _ _ H).
Defined.

Lemma C10_witness :
  let opts := request "install" ["g"] ["vim"] ["a.rpm"; "bad.rpm"] in
  let conf := config true in
  let t := trace (run toy opts conf []) in
  let forms := _get_nevra_forms_from_command opts in
  let filtered := _populate_update_security_filter toy opts (sack_query toy []) [] in
  let resolved := install_module toy (grp_specs opts) (assumeyes opts) filtered in
  let resolves := truthy (grp_specs opts) && negb (is_localinstall opts) in
  let w0 := if resolves then fst resolved else filtered in
  let skipped := if resolves then snd resolved else grp_specs opts in
  let intake := add_remote_rpms toy (filenames opts) (strict conf) w0 in
  let step := fun w p => fst (package_install toy p (strict conf) w) in
  (filenames opts = [] \/ _get_nevra_forms_from_command opts = [])
  /\ (command opts = ["localinstall"] ->
      (grp_specs opts = [] /\ pkg_specs opts = []) \/ strict conf = false)
  /\ count is_add_remote_rpms_call t = 1
  /\ (exists w0,
        filter is_add_remote_rpms_call t
        = [add_remote_rpms_call (filenames opts) (strict conf)
             (snd (add_remote_rpms toy (filenames opts) (strict conf) w0))])
  /\ exists pre loop post,
       t = pre ++ add_remote_rpms_call (filenames opts) (strict conf) (snd intake)
                  :: loop ++ post
       /\ Forall (fun ev => is_add_remote_rpms_call ev = false
                            /\ is_package_install_call ev = false) pre
       /\ Forall (fun ev => is_file_loop_event ev = true) loop
       /\ (forall t1 p s r t2,
             loop = t1 ++ package_install_call p s r :: t2 ->
             s = strict conf
             /\ r = snd (package_install toy p (strict conf)
                           (fold_left step (file_installs t1) (fst intake))))
       /\ let after := fold_left step (file_installs loop) (fst intake) in
          let rest_of_run :=
            run_after_files toy opts conf forms skipped
              (unmatched_pkgs (isinstance_MarkingError toy) loop) after in
          (snd intake = file_installs loop
           /\ post = trace rest_of_run
           /\ value (run toy opts conf []) = value rest_of_run
           /\ final (run toy opts conf []) = final rest_of_run)
          \/ (exists e rest,
                snd intake = file_installs loop ++ rest
                /\ isinstance_MarkingError toy e = false
                /\ post = []
                /\ value (run toy opts conf []) = Raise (Propagated e)
                /\ final (run toy opts conf []) = after).
Proof.
  intros opts conf.
  assert (H1 : filenames opts = [] \/ _get_nevra_forms_from_command opts = []).
  { right. reflexivity. }
  assert (H2 : command opts = ["localinstall"] ->
               (grp_specs opts = [] /\ pkg_specs opts = [])
               \/ strict conf = false).
  { intros E. discriminate E. }
  intros t forms filtered resolved resolves w0 skipped intake step.
  split; [exact H1|]. split; [exact H2|].
  exact (C10_file_intake_called_once toy opts conf [] H1 H2).
Defined.

Lemma X2_witness :
  let o := request "install-na" [] ["vim.x86_64"] [] in
  (In "install-na" aliases /\ command o = ["install-na"])
  /\ List.length (_get_nevra_forms_from_command o) <= 1
  /\ (_get_nevra_forms_from_command o = []
      <-> "install-na" = "install" \/ "install-na" = "localinstall").
Proof.
  intros o.
  assert (H1 : In "install-na" aliases) by (simpl; auto).
  assert (H2 : command o = ["install-na"]) by reflexivity.
  split; [auto|].
  exact (X2_an_alias_gives_at_most_one_form "install-na" o H1 H2).
Defined.

Lemma X8_witness :
  let opts := request "install" ["broken"] ["vim"] [] in
  let t := trace (run toy opts (config true) []) in
  value (run toy opts (config true) []) = Raise (Propagated CompsFault)
  /\ ((isinstance_MarkingError toy CompsFault = false
       /\ ((exists p w0,
              snd (package_install toy p (strict (config true)) w0) = Some CompsFault)
           \/ (exists spec w0,
                 snd (install toy spec (strict (config true))
                        (_get_nevra_forms_from_command opts) w0) = Some CompsFault)))
      \/ ((strict (config true) = true \/ isinstance_Error toy CompsFault = false)
          /\ exists specs w0,
               snd (env_group_install toy specs (group_package_types (config true))
                      (strict (config true)) w0) = Some CompsFault)).
Proof.
  intros opts t.
  assert (H : value (run toy opts (config true) []) = Raise (Propagated CompsFault))
    by reflexivity.
  split; [exact H|].
  exact (X8_what_a_run_raises toy opts (config true) [] _ H).
Defined.

Lemma X11_witness :
  let opts := request "install-n" ["g"] ["vim"; "nope"] ["a.rpm"; "b.rpm"] in
  let t := trace (run toy opts (config false) []) in
  let v := value (run toy opts (config false) []) in
  (strict (config false) = false /\ filenames opts <> []
   /\ _get_nevra_forms_from_command opts <> [])
  /\ filter is_add_remote_rpms_call t = []
  /\ filter is_package_install_call t = []
  /\ unmatched_pkgs (isinstance_MarkingError toy) t = []
  /\ (exists more, warned t = map (bold toy) (filenames opts) ++ more)
  /\ (forall msg, v <> Raise (Error msg))
  /\ (v = Return tt -> attempted_specs t = pkg_specs opts).
Proof.
  intros opts t v.
  assert (H1 : strict (config false) = false) by reflexivity.
  assert (H2 : filenames opts <> []) by discriminate.
  assert (H3 : _get_nevra_forms_from_command opts <> []) by discriminate.
  split; [auto|].
  exact (X11_non_strict_conflict_skips_the_files toy opts (config false) [] H1 H2 H3).
Defined.


Lemma X13_witness :
  let opts := request "install-nevra" ["mod"; "g"] ["vim"] [] in
  let t := trace (run toy opts (config true) []) in
  let v := value (run toy opts (config true) []) in
  (strict (config true) = true /\ _get_nevra_forms_from_command opts <> []
   /\ grp_specs opts <> []
   /\ snd (install_module toy (grp_specs opts) (assumeyes opts)
             (_populate_update_security_filter toy opts (sack_query toy []) [])) <> [])
  /\ (v = Raise (Error "Nothing to do.")
      \/ exists e, v = Raise (Propagated e) /\ isinstance_MarkingError toy e = false)
  /\ filter is_group_install_call t = []
  /\ attempted_specs t = [].
Proof.
  intros opts t v.
  assert (H1 : strict (config true) = true) by reflexivity.
  assert (H2 : _get_nevra_forms_from_command opts <> []) by discriminate.
  assert (H3 : grp_specs opts <> []) by discriminate.
  assert (H4 : snd (install_module toy (grp_specs opts) (assumeyes opts)
                      (_populate_update_security_filter toy opts (sack_query toy []) []))
               <> []) by discriminate.
  split; [auto|].
  exact (X13_groups_with_form_conflict toy opts (config true) [] H1 H2 H3 H4).
Defined.

End Examples.
